(** * A shallow embedding of the photo-editor core

    The development follows the TypeScript sources:
    - [services/geminiService.ts]: response normalisation
      ([handleApiResponse]) and the canvas geometry of the Expand operation
      ([generateExpandedImage]);
    - [App.tsx]: the user table, the generation gate
      ([checkUserCanGenerate]) and the credit update ([updateUserCredits]);
    - [views/EditorView.tsx] (the source part without a file name that
      defines [EditorView]): the undo/redo history and the generation life
      cycle ([handleGenericGeneration] and the handlers around it);
    - [components/CombinePanel.tsx]: the guard in front of the Combine
      operation;
    - further down, the rest of these files and their callers: [fileToPart]
      of the service, the session, the user table and the transactions of
      [App.tsx], the login form, the paywall form and the admin dashboard.

    JavaScript values are modelled as follows: a string is the sequence of
    its code units, each below 256; [string | undefined] is
    [option string]; optional chaining [a?.b] is the bind of the option
    monad; a thrown value is a [Thrown]; a function that returns or throws is
    an [Outcome]; React state is an explicit record threaded through the
    handlers, each handler reading the state of the render it was created in
    and returning the state after its setter calls; a handler that awaits
    the endpoint is split at its [await] into the call and the rest, which
    runs on the state the reply finds with the variables of the call
    ([Interleaving]). *)

From Stdlib Require Import ZArith QArith Lia Ascii String.
From stdpp Require Import base option list strings pretty.

Open Scope string_scope.
Open Scope Z_scope.
Open Scope list_scope.

(** ** JavaScript helpers *)

Module Js.

(** A value thrown by [throw] or by a rejected promise: an [Error] object
    with its message, or anything else. *)
Inductive Thrown : Type :=
| ErrorObj (message : string)
| NonError.

(** A call that either returns (resolves) or throws (rejects). *)
Inductive Outcome (A : Type) : Type :=
| Resolved (value : A)
| Rejected (thrown : Thrown).
Arguments Resolved {A} value.
Arguments Rejected {A} thrown.

(** [throw new Error(message)] *)
Definition throwError {A : Type} (message : string) : Outcome A :=
  Rejected (ErrorObj message).

(** Truthiness of a [string | undefined]: [undefined] and the empty string
    are falsy. *)
Definition truthy (v : option string) : bool :=
  match v with
  | Some s => negb (String.eqb s "")
  | None => false
  end.

(** [v || ''] *)
Definition orEmpty (v : option string) : string :=
  if truthy v then default "" v else "".

(** A [string | undefined] inside a template literal. *)
Definition interpolate (v : option string) : string :=
  default "undefined" v.

(** ECMAScript's WhiteSpace and LineTerminator among the code units below
    256, which are the characters of a [string] here: TAB, LF, VT, FF, CR,
    SPACE and NO-BREAK SPACE (U+00A0). *)
Definition isWhiteSpace (a : ascii) : bool :=
  match N_of_ascii a with
  | 9%N | 10%N | 11%N | 12%N | 13%N | 32%N | 160%N => true
  | _ => false
  end.

Fixpoint trimStart (s : string) : string :=
  match s with
  | EmptyString => EmptyString
  | String a rest => if isWhiteSpace a then trimStart rest else s
  end.

(** The double-quote character, for template literals that contain one. *)
Definition dquote : string := String (ascii_of_nat 34) EmptyString.

(** [s.trim()] *)
Definition trim (s : string) : string :=
  String.rev (trimStart (String.rev (trimStart s))).

End Js.

Import Js.

(** ** services/geminiService.ts *)

Module GeminiService.

(** The fields of [GenerateContentResponse] that the service reads.
    [text] is the value of the SDK's [response.text] accessor. *)
Record Blob : Type := mkBlob {
  mimeType : option string;
  data : option string
}.

Record Part : Type := mkPart {
  inlineData : option Blob
}.

Record Content : Type := mkContent {
  parts : option (list Part)
}.

Record Candidate : Type := mkCandidate {
  content : option Content;
  finishReason : option string
}.

Record PromptFeedback : Type := mkPromptFeedback {
  blockReason : option string;
  blockReasonMessage : option string
}.

Record GenerateContentResponse : Type := mkResponse {
  promptFeedback : option PromptFeedback;
  candidates : option (list Candidate);
  text : option string
}.

(** The three messages [handleApiResponse] throws, one per throw site. *)
Definition blockedMessage (reason : string) (message : option string) : string :=
  "Request was blocked. Reason: " +:+ reason +:+ ". " +:+ orEmpty message.

Definition abnormalMessage (context reason : string) : string :=
  "Image generation for " +:+ context +:+ " stopped unexpectedly. Reason: "
    +:+ reason +:+ ". This often relates to safety settings.".

Definition noImageMessage (context : string) (textFeedback : option string) : string :=
  "The AI model did not return an image for the " +:+ context +:+ ". " +:+
    (if truthy textFeedback
     then "The model responded with text: " +:+ dquote +:+ default "" textFeedback
            +:+ dquote
     else "This can happen due to safety filters or if the request is too complex. Please try rephrasing your prompt to be more direct.").

(** [`data:${mimeType};base64,${data}`] *)
Definition dataUrl (b : Blob) : string :=
  "data:" +:+ interpolate (mimeType b) +:+ ";base64," +:+ interpolate (data b).

(** [part => part.inlineData]: an object is truthy. *)
Definition hasInlineData (part : Part) : bool :=
  match inlineData part with Some _ => true | None => false end.

Definition handleApiResponse (response : GenerateContentResponse)
    (context : string) : Outcome string :=
  (* 1. Check for prompt blocking first *)
  if truthy (promptFeedback response ≫= blockReason) then
    throwError (blockedMessage
                  (default "" (promptFeedback response ≫= blockReason))
                  (promptFeedback response ≫= blockReasonMessage))
  else
    (* 2. Try to find the image part *)
    let imagePartFromResponse :=
      (((candidates response ≫= head) ≫= content) ≫= parts) ≫= find hasInlineData in
    match imagePartFromResponse ≫= inlineData with
    | Some blob => Resolved (dataUrl blob)
    | None =>
        (* 3. If no image, check for other reasons *)
        let finishReason := (candidates response ≫= head) ≫= finishReason in
        if truthy finishReason && negb (String.eqb (default "" finishReason) "STOP") then
          throwError (abnormalMessage context (default "" finishReason))
        else
          let textFeedback := trim <$> text response in
          throwError (noImageMessage context textFeedback)
    end.

(** The five generation entry points. Each awaits the encoding of its
    operands and the round trip to the endpoint, and hands the response to
    [handleApiResponse] under its own context word. [reply] is how that
    round trip settled: with a response, or with a rejection raised before
    any response was read. *)
Definition normalise (context : string)
    (reply : Outcome GenerateContentResponse) : Outcome string :=
  match reply with
  | Resolved response => handleApiResponse response context
  | Rejected thrown => Rejected thrown
  end.

Definition generateEditedImage := normalise "edit".
Definition generateFilteredImage := normalise "filter".
Definition generateAdjustedImage := normalise "adjustment".
Definition generateCombinedImage := normalise "combine".
Definition generateExpandedImage := normalise "expand".

(** *** The canvas of the Expand operation *)

Inductive Direction : Type := top | bottom | left | right.

(** What [generateExpandedImage] hands to the canvas: the size assigned to
    [canvas.width] and [canvas.height], and the position passed to
    [ctx.drawImage]. JavaScript numbers are rationals here: halving an
    image dimension is exact. These are the values of the four local
    variables; [composeExpanded] below is the canvas they produce. *)
Record ExpandedCanvas : Type := mkExpandedCanvas {
  newWidth : Q;
  newHeight : Q;
  drawX : Q;
  drawY : Q
}.

Definition EXPANSION_FACTOR : Q := 0.5.

Definition expandCanvas (naturalWidth naturalHeight : Z)
    (direction : Direction) : ExpandedCanvas :=
  let newWidth := inject_Z naturalWidth in
  let newHeight := inject_Z naturalHeight in
  let drawX := 0%Q in
  let drawY := 0%Q in
  match direction with
  | top =>
      mkExpandedCanvas newWidth
        (newHeight + inject_Z naturalHeight * EXPANSION_FACTOR)
        drawX (inject_Z naturalHeight * EXPANSION_FACTOR)
  | bottom =>
      mkExpandedCanvas newWidth
        (newHeight + inject_Z naturalHeight * EXPANSION_FACTOR)
        drawX drawY
  | left =>
      mkExpandedCanvas
        (newWidth + inject_Z naturalWidth * EXPANSION_FACTOR) newHeight
        (inject_Z naturalWidth * EXPANSION_FACTOR) drawY
  | right =>
      mkExpandedCanvas
        (newWidth + inject_Z naturalWidth * EXPANSION_FACTOR) newHeight
        drawX drawY
  end.

(** [canvas.width = newWidth; canvas.height = newHeight]: the two
    attributes are of type [unsigned long], so the number assigned is cut
    to an integer, towards zero and modulo 2{^32}; a value above 2{^31}-1
    gives the attribute its default (300 for the width, 150 for the
    height). *)
Definition toUnsignedLong (v : Q) : Z :=
  Z.quot (Qnum v) (Z.pos (Qden v)) mod 2 ^ 32.

Definition setDimension (default : Z) (v : Q) : Z :=
  if toUnsignedLong v <=? 2147483647 then toUnsignedLong v else default.

Record Canvas : Type := mkCanvas { width : Z; height : Z }.

(** The canvas after [ctx.drawImage(img, drawX, drawY)]: its size, and
    the place of the top left corner of the source image, which is drawn
    at its natural size; what falls outside the canvas is clipped. *)
Record Composition : Type := mkComposition {
  canvas : Canvas;
  imageX : Q;
  imageY : Q
}.

Definition composeExpanded (naturalWidth naturalHeight : Z)
    (direction : Direction) : Composition :=
  let e := expandCanvas naturalWidth naturalHeight direction in
  mkComposition
    (mkCanvas (setDimension 300 (newWidth e)) (setDimension 150 (newHeight e)))
    (drawX e) (drawY e).

End GeminiService.

(** ** App.tsx *)

Module App.

Inductive Role : Type := admin | user.

Definition Role_eqb (a b : Role) : bool :=
  match a, b with
  | admin, admin | user, user => true
  | _, _ => false
  end.

Record User : Type := mkUser {
  id : string;
  email : string;
  password : option string;
  credits : Z;
  isEnabled : bool;
  role : Role
}.

Definition initialUsers : list User :=
  [ mkUser "u001" "alice@example.com" (Some "adminpassword") 999 true admin;
    mkUser "u002" "bob@example.com" (Some "password123") 15 true user;
    mkUser "u003" "charlie@example.com" (Some "password123") 0 true user;
    mkUser "u004" "diana@example.com" (Some "password123") 1 false user ].

(** The state of the [App] component that the gate and the credit update
    read and write. *)
Record AppState : Type := mkAppState {
  error : option string;
  currentUserId : option string;
  showPaywall : bool;
  users : list User
}.

Definition setError (v : option string) (st : AppState) : AppState :=
  mkAppState v (currentUserId st) (showPaywall st) (users st).

Definition setShowPaywall (v : bool) (st : AppState) : AppState :=
  mkAppState (error st) (currentUserId st) v (users st).

Definition setUsers (f : list User → list User) (st : AppState) : AppState :=
  mkAppState (error st) (currentUserId st) (showPaywall st) (f (users st)).

(** [users.find(u => u.id === currentUserId)]; no id equals [null]. *)
Definition currentUser (st : AppState) : option User :=
  currentUserId st ≫= λ cid, find (λ u, String.eqb (id u) cid) (users st).

Definition withCredits (u : User) (c : Z) : User :=
  mkUser (id u) (email u) (password u) c (isEnabled u) (role u).

Definition updateUserCredits (userId : string) (creditChange : Z)
    (st : AppState) : AppState :=
  setUsers
    (map (λ u,
       if String.eqb (id u) userId
       then withCredits u (Z.max 0 (credits u + creditChange))
       else u))
    st.

Definition notLoggedInMessage : string :=
  "You must be logged in to generate images.".

Definition disabledMessage : string :=
  "Your account has been disabled by an administrator.".

(** The returned boolean and the state after the setter calls. *)
Definition checkUserCanGenerate (st : AppState) : bool * AppState :=
  match currentUser st with
  | None => (false, setError (Some notLoggedInMessage) st)
  | Some cu =>
      if negb (isEnabled cu) then
        (false, setError (Some disabledMessage) st)
      else if negb (Role_eqb (role cu) admin) && (credits cu <=? 0) then
        (false, setShowPaywall true st)
      else
        (true, st)
  end.

End App.

(** ** utils/fileHelpers.ts *)

Module FileHelpers.

(** A browser [File]: its name, MIME type and contents. *)
Record File : Type := mkFile {
  name : string;
  type : string;
  contents : string
}.

(** Modelled from the spec: [addImageToHistory] of [utils/fileHelpers.ts],
    which [EditorView] imports and whose source is not part of the
    repository files at hand. The spec's History Manager contract says of
    [append(image)]: it truncates the sequence to [[0..index]] inclusive,
    then appends [image]; the index becomes the new last position. The
    pair returned is what the call passes to [setHistory] and
    [setHistoryIndex]. *)
Definition addImageToHistory (newImage : File) (history : list File)
    (historyIndex : Z) : list File * Z :=
  let newHistory := take (Z.to_nat (historyIndex + 1)) history ++ [newImage] in
  (newHistory, Z.of_nat (length newHistory) - 1).

End FileHelpers.

(** ** views/EditorView.tsx and components/CombinePanel.tsx *)

Module EditorView.

Import FileHelpers.

Inductive Tab : Type :=
| tabRetouch | tabAdjust | tabFilters | tabCrop | tabCombine | tabExpand.

Record Hotspot : Type := mkHotspot { hotspot_x : Q; hotspot_y : Q }.

Record PixelCrop : Type := mkPixelCrop {
  crop_x : Q; crop_y : Q; crop_width : Q; crop_height : Q
}.

(** The [useState] cells of the component. *)
Record EditorState : Type := mkEditorState {
  history : list File;
  historyIndex : Z;
  isLoading : bool;
  error : option string;
  prompt : string;
  editHotspot : option Hotspot;
  displayHotspot : option Hotspot;
  activeTab : Tab;
  crop : option PixelCrop;
  completedCrop : option PixelCrop
}.

(** The state a freshly mounted component starts from. *)
Definition initialState : EditorState :=
  mkEditorState [] (-1) false None "" None None tabRetouch None None.

Definition setHistory (v : list File) (s : EditorState) : EditorState :=
  mkEditorState v (historyIndex s) (isLoading s) (error s) (prompt s)
    (editHotspot s) (displayHotspot s) (activeTab s) (crop s) (completedCrop s).

Definition setHistoryIndex (v : Z) (s : EditorState) : EditorState :=
  mkEditorState (history s) v (isLoading s) (error s) (prompt s)
    (editHotspot s) (displayHotspot s) (activeTab s) (crop s) (completedCrop s).

Definition setIsLoading (v : bool) (s : EditorState) : EditorState :=
  mkEditorState (history s) (historyIndex s) v (error s) (prompt s)
    (editHotspot s) (displayHotspot s) (activeTab s) (crop s) (completedCrop s).

Definition setError (v : option string) (s : EditorState) : EditorState :=
  mkEditorState (history s) (historyIndex s) (isLoading s) v (prompt s)
    (editHotspot s) (displayHotspot s) (activeTab s) (crop s) (completedCrop s).

Definition setPrompt (v : string) (s : EditorState) : EditorState :=
  mkEditorState (history s) (historyIndex s) (isLoading s) (error s) v
    (editHotspot s) (displayHotspot s) (activeTab s) (crop s) (completedCrop s).

Definition setEditHotspot (v : option Hotspot) (s : EditorState) : EditorState :=
  mkEditorState (history s) (historyIndex s) (isLoading s) (error s) (prompt s)
    v (displayHotspot s) (activeTab s) (crop s) (completedCrop s).

Definition setDisplayHotspot (v : option Hotspot) (s : EditorState) : EditorState :=
  mkEditorState (history s) (historyIndex s) (isLoading s) (error s) (prompt s)
    (editHotspot s) v (activeTab s) (crop s) (completedCrop s).

Definition setActiveTab (v : Tab) (s : EditorState) : EditorState :=
  mkEditorState (history s) (historyIndex s) (isLoading s) (error s) (prompt s)
    (editHotspot s) (displayHotspot s) v (crop s) (completedCrop s).

Definition setCrop (v : option PixelCrop) (s : EditorState) : EditorState :=
  mkEditorState (history s) (historyIndex s) (isLoading s) (error s) (prompt s)
    (editHotspot s) (displayHotspot s) (activeTab s) v (completedCrop s).

Definition setCompletedCrop (v : option PixelCrop) (s : EditorState) : EditorState :=
  mkEditorState (history s) (historyIndex s) (isLoading s) (error s) (prompt s)
    (editHotspot s) (displayHotspot s) (activeTab s) (crop s) v.

(** [history[i]]: [undefined] for a negative or too large index. *)
Definition at_index (l : list File) (i : Z) : option File :=
  if 0 <=? i then l !! Z.to_nat i else None.

(** [history[historyIndex] ?? null] and [history[0] ?? null] *)
Definition currentImage (s : EditorState) : option File :=
  at_index (history s) (historyIndex s).

Definition originalImage (s : EditorState) : option File :=
  at_index (history s) 0.

Definition canUndo (s : EditorState) : bool := 0 <? historyIndex s.

Definition canRedo (s : EditorState) : bool :=
  historyIndex s <? Z.of_nat (length (history s)) - 1.

(** The [img] element that carries [imgRef] is rendered unless the
    component returns the error panel ([if (error)]) or the start screen
    ([if (!currentImageUrl)], the URL following [currentImage] through an
    effect); [imgRef.current] is set exactly then. *)
Definition imgRefCurrent (s : EditorState) : bool :=
  match error s, currentImage s with
  | None, Some _ => true
  | _, _ => false
  end.

(** The component together with the [App] state its props reach. *)
Record World : Type := mkWorld {
  app : App.AppState;
  editor : EditorState
}.

Definition onEditor (f : EditorState → EditorState) (w : World) : World :=
  mkWorld (app w) (f (editor w)).

Definition onApp (f : App.AppState → App.AppState) (w : World) : World :=
  mkWorld (f (app w)) (editor w).

(** [err instanceof Error ? err.message : 'An unknown error occurred.'] *)
Definition errorMessageOf (err : Thrown) : string :=
  match err with
  | ErrorObj message => message
  | NonError => "An unknown error occurred."
  end.

(** Modelled from the spec: the History Manager's [append(image)] as a
    step on the editor state, which is [addImageToHistory] (see
    [FileHelpers]) called with [history], [historyIndex] and their two
    setters, as [handleGenericGeneration] and [handleApplyCrop] call it. *)
Definition append (image : File) (s : EditorState) : EditorState :=
  let '(newHistory, newIndex) :=
    addImageToHistory image (history s) (historyIndex s) in
  setHistoryIndex newIndex (setHistory newHistory s).

(** What the rest of [handleGenericGeneration] reads from its closure once
    [await apiCall()] resumes: its parameter [fileNamePrefix] and the
    [history], [historyIndex] and [currentUser] of the render in which it
    was called. *)
Record Awaiting : Type := mkAwaiting {
  awaitingPrefix : string;
  awaitingHistory : list File;
  awaitingHistoryIndex : Z;
  awaitingUser : App.User
}.

(** The buttons of the toolbar: [disabled={!canUndo}] on Undo,
    [disabled={!canRedo}] on Redo, [disabled={!canUndo}] on Reset. A
    disabled button does not call its handler. *)
Definition undoDisabled (s : EditorState) : bool := negb (canUndo s).
Definition redoDisabled (s : EditorState) : bool := negb (canRedo s).
Definition resetDisabled (s : EditorState) : bool := negb (canUndo s).

Section Handlers.

(** [dataURLtoFile] of [utils/fileHelpers.ts] decodes a data URL into a
    [File] of the given name, or throws; its source is not at hand and
    the handlers are stated for any such function. *)
Variable dataURLtoFile : string → string → Outcome File.

(** [`${fileNamePrefix}-${Date.now()}.png`] *)
Definition stampedName (fileNamePrefix : string) (now : Z) : string :=
  fileNamePrefix +:+ "-" +:+ pretty now +:+ ".png".

(** The [catch] and [finally] blocks of [handleGenericGeneration]. *)
Definition generationFailed (err : Thrown) (w : World) : option bool * World :=
  (Some false,
   onEditor (λ s, setIsLoading false
                    (setError (Some ("Operation failed. " +:+ errorMessageOf err)) s))
            w).

(** [handleGenericGeneration] from its call to [await apiCall()]: the
    gate, the two setters, and the continuation left waiting for the
    promise, or none after the bare [return]. *)
Definition handleGenericGeneration_call (fileNamePrefix : string)
    (w : World) : World * option Awaiting :=
  let '(allowed, app1) := App.checkUserCanGenerate (app w) in
  match allowed, App.currentUser (app w) with
  | true, Some currentUser =>
      (mkWorld app1 (setError None (setIsLoading true (editor w))),
       Some (mkAwaiting fileNamePrefix
               (history (editor w)) (historyIndex (editor w)) currentUser))
  | _, _ => (mkWorld app1 (editor w), None)
  end.

(** [handleGenericGeneration] from the [await] on, in the state [w] in
    which the promise settles: [apiCall] is the way it settles, [now] the
    value of [Date.now()]. [history], [historyIndex] and [currentUser] are
    those of the continuation; [setHistory], [setHistoryIndex],
    [setIsLoading], [setError] and the updater of [updateUserCredits] act
    on [w]. The result is the value the handler returns and the state
    after it. *)
Definition handleGenericGeneration_settle (k : Awaiting)
    (apiCall : Outcome string) (now : Z) (w : World) : option bool * World :=
  match apiCall with
  | Rejected err => generationFailed err w
  | Resolved imageUrl =>
      match dataURLtoFile imageUrl (stampedName (awaitingPrefix k) now) with
      | Rejected err => generationFailed err w
      | Resolved newImageFile =>
          let '(newHistory, newIndex) :=
            addImageToHistory newImageFile
              (awaitingHistory k) (awaitingHistoryIndex k) in
          let w2 := onEditor (λ s, setHistoryIndex newIndex
                                     (setHistory newHistory s)) w in
          let w3 :=
            if negb (App.Role_eqb (App.role (awaitingUser k)) App.admin)
            then onApp (App.updateUserCredits (App.id (awaitingUser k)) (-1)) w2
            else w2 in
          (Some true, onEditor (setIsLoading false) w3)
      end
  end.

(** A call of [handleGenericGeneration] whose promise settles before any
    other event reaches the component: the two halves one after the other
    ([None] stands for the bare [return]). The runs in which other
    handlers come between the two halves are those of [Interleaving]. *)
Definition handleGenericGeneration (apiCall : Outcome string)
    (fileNamePrefix : string) (now : Z) (w : World) : option bool * World :=
  match handleGenericGeneration_call fileNamePrefix w with
  | (w1, Some k) => handleGenericGeneration_settle k apiCall now w1
  | (w1, None) => (None, w1)
  end.

(** The state in which the call to the endpoint is awaited. *)
Definition submitting (w : World) : World :=
  onEditor (λ s, setError None (setIsLoading true s)) w.

(** The three ways [handleGenericGeneration] ends. *)
Inductive GenerationEnd (apiCall : Outcome string) (fileNamePrefix : string)
    (now : Z) (w : World) : option bool → World → Prop :=
| generation_denied st' :
    App.checkUserCanGenerate (app w) = (false, st') →
    GenerationEnd apiCall fileNamePrefix now w None (mkWorld st' (editor w))
| generation_failed err :
    (App.checkUserCanGenerate (app w)).1 = true →
    apiCall = Rejected err
    ∨ (∃ url, apiCall = Resolved url
         ∧ dataURLtoFile url (stampedName fileNamePrefix now) = Rejected err) →
    GenerationEnd apiCall fileNamePrefix now w (Some false)
      (onEditor (λ s, setIsLoading false
                        (setError (Some ("Operation failed. " +:+ errorMessageOf err)) s))
                (submitting w))
| generation_committed cu url image :
    (App.checkUserCanGenerate (app w)).1 = true →
    App.currentUser (app w) = Some cu →
    apiCall = Resolved url →
    dataURLtoFile url (stampedName fileNamePrefix now) = Resolved image →
    GenerationEnd apiCall fileNamePrefix now w (Some true)
      (mkWorld
         (match App.role cu with
          | App.admin => app w
          | App.user => App.updateUserCredits (App.id cu) (-1) (app w)
          end)
         (setIsLoading false (append image (editor (submitting w))))).

Definition handleImageUpload (file : File) (s : EditorState) : EditorState :=
  setCompletedCrop None
    (setCrop None
       (setActiveTab tabRetouch
          (setDisplayHotspot None
             (setEditHotspot None
                (setHistoryIndex 0
                   (setHistory [file]
                      (setError None s))))))).

Definition handleGenerate (reply : Outcome GeminiService.GenerateContentResponse)
    (now : Z) (w : World) : World :=
  match currentImage (editor w) with
  | None => onEditor (setError (Some "No image loaded to edit.")) w
  | Some _ =>
      if negb (truthy (Some (trim (prompt (editor w))))) then
        onEditor (setError (Some "Please enter a description for your edit.")) w
      else
        match editHotspot (editor w) with
        | None =>
            onEditor
              (setError (Some "Please click on the image to select an area to edit.")) w
        | Some _ =>
            let '(success, w1) :=
              handleGenericGeneration
                (GeminiService.generateEditedImage reply) "edited" now w in
            match success with
            | Some true =>
                onEditor (λ s, setDisplayHotspot None (setEditHotspot None s)) w1
            | _ => w1
            end
        end
  end.

Definition handleApplyFilter (reply : Outcome GeminiService.GenerateContentResponse)
    (now : Z) (w : World) : World :=
  match currentImage (editor w) with
  | None => onEditor (setError (Some "No image loaded.")) w
  | Some _ =>
      (handleGenericGeneration
         (GeminiService.generateFilteredImage reply) "filtered" now w).2
  end.

Definition handleApplyAdjustment (reply : Outcome GeminiService.GenerateContentResponse)
    (now : Z) (w : World) : World :=
  match currentImage (editor w) with
  | None => onEditor (setError (Some "No image loaded.")) w
  | Some _ =>
      (handleGenericGeneration
         (GeminiService.generateAdjustedImage reply) "adjusted" now w).2
  end.

Definition handleCombineImages (reply : Outcome GeminiService.GenerateContentResponse)
    (now : Z) (w : World) : World :=
  (handleGenericGeneration
     (GeminiService.generateCombinedImage reply) "combined" now w).2.

Definition handleExpandImage (reply : Outcome GeminiService.GenerateContentResponse)
    (now : Z) (w : World) : World :=
  match currentImage (editor w) with
  | None => onEditor (setError (Some "No image loaded.")) w
  | Some _ =>
      (handleGenericGeneration
         (GeminiService.generateExpandedImage reply) "expanded" now w).2
  end.

(** [canvasContext] tells whether [canvas.getContext('2d')] gave a
    context, [croppedImageUrl] is the value of [canvas.toDataURL]. An
    exception of [dataURLtoFile] leaves the handler before any setter
    ran. *)
Definition handleApplyCrop (canvasContext : bool) (croppedImageUrl : string)
    (now : Z) (s : EditorState) : EditorState :=
  match completedCrop s, imgRefCurrent s with
  | Some _, true =>
      if negb canvasContext then
        setError (Some "Could not process the crop.") s
      else
        match dataURLtoFile croppedImageUrl (stampedName "cropped" now) with
        | Rejected _ => s
        | Resolved newImageFile =>
            let '(newHistory, newIndex) :=
              addImageToHistory newImageFile (history s) (historyIndex s) in
            setCompletedCrop None
              (setCrop None
                 (setHistoryIndex newIndex (setHistory newHistory s)))
        end
  | _, _ => setError (Some "Please select an area to crop.") s
  end.

Definition handleUndo (s : EditorState) : EditorState :=
  if canUndo s then
    setDisplayHotspot None
      (setEditHotspot None (setHistoryIndex (historyIndex s - 1) s))
  else s.

Definition handleRedo (s : EditorState) : EditorState :=
  if canRedo s then
    setDisplayHotspot None
      (setEditHotspot None (setHistoryIndex (historyIndex s + 1) s))
  else s.

Definition handleReset (s : EditorState) : EditorState :=
  if 0 <? Z.of_nat (length (history s)) then
    setDisplayHotspot None
      (setEditHotspot None (setError None (setHistoryIndex 0 s)))
  else s.

Definition handleUploadNew (s : EditorState) : EditorState :=
  setDisplayHotspot None
    (setEditHotspot None
       (setPrompt ""
          (setError None (setHistoryIndex (-1) (setHistory [] s))))).

(** [handleApply] of [CombinePanel]: [baseImage] is the [currentImage]
    prop, [image2] and [prompt] are the panel's own state, [onCombine] is
    [handleCombineImages]. *)
Definition combinePanelHandleApply (image2 : option File) (panelPrompt : string)
    (reply : Outcome GeminiService.GenerateContentResponse)
    (now : Z) (w : World) : World :=
  match currentImage (editor w), image2 with
  | Some _, Some _ =>
      if truthy (Some panelPrompt) then handleCombineImages reply now w else w
  | _, _ => w
  end.

(** The user actions that reach the history, each with the inputs that
    come from outside the component. *)
Inductive Action : Type :=
| ImageUpload (file : File)
| Generate (reply : Outcome GeminiService.GenerateContentResponse) (now : Z)
| ApplyFilter (reply : Outcome GeminiService.GenerateContentResponse) (now : Z)
| ApplyAdjustment (reply : Outcome GeminiService.GenerateContentResponse) (now : Z)
| Combine (image2 : option File) (panelPrompt : string)
    (reply : Outcome GeminiService.GenerateContentResponse) (now : Z)
| ExpandImage (reply : Outcome GeminiService.GenerateContentResponse) (now : Z)
| ApplyCrop (canvasContext : bool) (croppedImageUrl : string) (now : Z)
| Undo
| Redo
| Reset
| UploadNew.

Definition step (a : Action) (w : World) : World :=
  match a with
  | ImageUpload file => onEditor (handleImageUpload file) w
  | Generate reply now => handleGenerate reply now w
  | ApplyFilter reply now => handleApplyFilter reply now w
  | ApplyAdjustment reply now => handleApplyAdjustment reply now w
  | Combine image2 panelPrompt reply now =>
      combinePanelHandleApply image2 panelPrompt reply now w
  | ExpandImage reply now => handleExpandImage reply now w
  | ApplyCrop canvasContext url now =>
      onEditor (handleApplyCrop canvasContext url now) w
  | Undo => onEditor handleUndo w
  | Redo => onEditor handleRedo w
  | Reset => onEditor handleReset w
  | UploadNew => onEditor handleUploadNew w
  end.

Definition run (actions : list Action) (w : World) : World :=
  foldl (λ w a, step a w) w actions.

(** The file most recently handed to [handleImageUpload] and not yet
    dropped by [handleUploadNew]: the original upload of the session. *)
Definition trackOriginal (a : Action) (original : option File) : option File :=
  match a with
  | ImageUpload file => Some file
  | UploadNew => None
  | _ => original
  end.


End Handlers.

(** Undo, redo and reset move the index and leave the sequence alone. *)
Definition isNavigation (a : Action) : bool :=
  match a with
  | Undo | Redo | Reset => true
  | _ => false
  end.

(** The invariant of the spec's data model: the index is [-1] on the
    empty sequence and within [[0, length-1]] otherwise, and the element
    at index 0 is the original upload. *)
Definition HistoryInvariant (original : option File) (s : EditorState) : Prop :=
  match history s with
  | [] => historyIndex s = -1 ∧ original = None
  | first :: _ =>
      0 ≤ historyIndex s ≤ Z.of_nat (length (history s)) - 1
      ∧ original = Some first
  end.

(** The part of the invariant that concerns the index alone. *)
Definition IndexInRange (s : EditorState) : Prop :=
  match history s with
  | [] => historyIndex s = -1
  | _ :: _ => 0 ≤ historyIndex s ≤ Z.of_nat (length (history s)) - 1
  end.

End EditorView.

(** ** EditorView between a call and its reply

    [handleGenericGeneration] is suspended at [await apiCall()], and the
    component goes on serving its other handlers until the promise
    settles. A session is the state together with the calls in flight. *)

Module Interleaving.

Import FileHelpers EditorView.

(** The five handlers that await the endpoint. *)
Inductive Operation : Type := opEdit | opFilter | opAdjust | opCombine | opExpand.

(** The [apiCall] each handler passes, given by the response of the
    endpoint. *)
Definition apiCallOf (op : Operation)
    (reply : Outcome GeminiService.GenerateContentResponse) : Outcome string :=
  match op with
  | opEdit => GeminiService.generateEditedImage reply
  | opFilter => GeminiService.generateFilteredImage reply
  | opAdjust => GeminiService.generateAdjustedImage reply
  | opCombine => GeminiService.generateCombinedImage reply
  | opExpand => GeminiService.generateExpandedImage reply
  end.

(** A call in flight: the handler that made it, and what the rest of
    [handleGenericGeneration] holds. *)
Record InFlight : Type := mkInFlight {
  operation : Operation;
  continuation : Awaiting
}.

Record Session : Type := mkSession {
  world : World;
  inFlight : list InFlight
}.

(** A freshly mounted component under the given [App] state. *)
Definition mounted (st : App.AppState) : Session :=
  mkSession (mkWorld st initialState) [].

(** The history and index a continuation holds, as an editor state. *)
Definition awaitingState (k : Awaiting) : EditorState :=
  setHistoryIndex (awaitingHistoryIndex k)
    (setHistory (awaitingHistory k) initialState).

(** Each handler from its call to the [await] inside
    [handleGenericGeneration]: its own checks (for Combine those of
    [handleApply] in [CombinePanel], on the panel's [image2] and
    [prompt]), then the first half of [handleGenericGeneration]. *)
Definition call (op : Operation) (image2 : option File) (panelPrompt : string)
    (w : World) : World * option Awaiting :=
  match op with
  | opEdit =>
      match currentImage (editor w) with
      | None => (onEditor (setError (Some "No image loaded to edit.")) w, None)
      | Some _ =>
          if negb (truthy (Some (trim (prompt (editor w))))) then
            (onEditor (setError (Some "Please enter a description for your edit.")) w,
             None)
          else
            match editHotspot (editor w) with
            | None =>
                (onEditor
                   (setError
                      (Some "Please click on the image to select an area to edit.")) w,
                 None)
            | Some _ => handleGenericGeneration_call "edited" w
            end
      end
  | opFilter =>
      match currentImage (editor w) with
      | None => (onEditor (setError (Some "No image loaded.")) w, None)
      | Some _ => handleGenericGeneration_call "filtered" w
      end
  | opAdjust =>
      match currentImage (editor w) with
      | None => (onEditor (setError (Some "No image loaded.")) w, None)
      | Some _ => handleGenericGeneration_call "adjusted" w
      end
  | opCombine =>
      match currentImage (editor w), image2 with
      | Some _, Some _ =>
          if truthy (Some panelPrompt)
          then handleGenericGeneration_call "combined" w
          else (w, None)
      | _, _ => (w, None)
      end
  | opExpand =>
      match currentImage (editor w) with
      | None => (onEditor (setError (Some "No image loaded.")) w, None)
      | Some _ => handleGenericGeneration_call "expanded" w
      end
  end.

(** What the component renders: the error panel [if (error)], the start
    screen [if (!currentImageUrl)], the editor otherwise. *)
Inductive Screen : Type := errorPanel | startScreen | editorScreen.

Definition screen (s : EditorState) : Screen :=
  if truthy (error s) then errorPanel
  else match currentImage s with
       | None => startScreen
       | Some _ => editorScreen
       end.

Definition onScreen (which : Screen) (s : EditorState) : bool :=
  match which, screen s with
  | errorPanel, errorPanel | startScreen, startScreen
  | editorScreen, editorScreen => true
  | _, _ => false
  end.

Definition onTab (tab : Tab) (s : EditorState) : bool :=
  match tab, activeTab s with
  | tabRetouch, tabRetouch | tabAdjust, tabAdjust | tabFilters, tabFilters
  | tabCrop, tabCrop | tabCombine, tabCombine | tabExpand, tabExpand => true
  | _, _ => false
  end.

(** [handleImageClick]: on the retouch tab a click on the image stores
    the place of the click as the display hotspot and the same place in
    the coordinates of the image as the edit hotspot; both are computed
    from the mouse event and are given here. *)
Definition handleImageClick (displayed original : Hotspot)
    (s : EditorState) : EditorState :=
  if onTab tabRetouch s
  then setEditHotspot (Some original) (setDisplayHotspot (Some displayed) s)
  else s.

(** The events the component serves besides the handlers of [Action]:
    a generation handler called and left at its [await], the promise of
    the [n]-th call in flight settling, a click on a tab or on the image,
    typing in the prompt field, and Try Again on the error panel. An
    [Action] is a handler that runs to its end before the next event (for
    a generation: its promise settles first). *)
Inductive Event : Type :=
| Call (op : Operation) (image2 : option File) (panelPrompt : string)
| Reply (n : nat) (reply : Outcome GeminiService.GenerateContentResponse) (now : Z)
| SelectTab (tab : Tab)
| ImageClick (displayed original : Hotspot)
| TypePrompt (text : string)
| TryAgain
| Handler (a : Action).

Section Handlers.

Variable dataURLtoFile : string → string → Outcome File.

(** The rest of the handler once the promise settles, in the state [w]
    of that moment: the second half of [handleGenericGeneration] and, in
    [handleGenerate], the clearing of the hotspots after a success. *)
Definition settle (p : InFlight)
    (reply : Outcome GeminiService.GenerateContentResponse) (now : Z)
    (w : World) : World :=
  let '(success, w1) :=
    handleGenericGeneration_settle dataURLtoFile (continuation p)
      (apiCallOf (operation p) reply) now w in
  match operation p, success with
  | opEdit, Some true =>
      onEditor (λ s, setDisplayHotspot None (setEditHotspot None s)) w1
  | _, _ => w1
  end.

Definition stepSession (e : Event) (σ : Session) : Session :=
  match e with
  | Call op image2 panelPrompt =>
      let '(w1, k) := call op image2 panelPrompt (world σ) in
      mkSession w1
        (inFlight σ ++ match k with
                       | Some k => [mkInFlight op k]
                       | None => []
                       end)
  | Reply n reply now =>
      match inFlight σ !! n with
      | Some p =>
          mkSession (settle p reply now (world σ)) (delete n (inFlight σ))
      | None => σ
      end
  | SelectTab tab => mkSession (onEditor (setActiveTab tab) (world σ)) (inFlight σ)
  | ImageClick displayed original =>
      mkSession (onEditor (handleImageClick displayed original) (world σ))
        (inFlight σ)
  | TypePrompt text => mkSession (onEditor (setPrompt text) (world σ)) (inFlight σ)
  | TryAgain => mkSession (onEditor (setError None) (world σ)) (inFlight σ)
  | Handler a => mkSession (step dataURLtoFile a (world σ)) (inFlight σ)
  end.

Definition runSession (events : list Event) (σ : Session) : Session :=
  foldl (λ σ e, stepSession e σ) σ events.



(** Whether the rendered component lets the generation handler be
    called: its panel is the one of the active tab and its button is not
    disabled. The Generate button has
    [disabled={isLoading || !prompt.trim() || !editHotspot}], the one of
    [CombinePanel]
    [disabled={isLoading || !baseImage || !image2 || !prompt.trim()}],
    the one of [ExpandPanel] [disabled={isLoading}]; the Filter and
    Adjust panels receive [isLoading] too and are taken to do the same. *)
Definition callOffered (op : Operation) (image2 : option File)
    (panelPrompt : string) (s : EditorState) : bool :=
  onScreen editorScreen s && negb (isLoading s)
  && match op with
     | opEdit =>
         onTab tabRetouch s && truthy (Some (trim (prompt s)))
         && bool_decide (is_Some (editHotspot s))
     | opFilter => onTab tabFilters s
     | opAdjust => onTab tabAdjust s
     | opCombine =>
         onTab tabCombine s && bool_decide (is_Some image2)
         && truthy (Some (trim panelPrompt))
     | opExpand => onTab tabExpand s
     end.



End Handlers.



(** The files handed to [handleImageUpload] by the event. *)
Definition uploadOf (e : Event) : list File :=
  match e with
  | Handler (ImageUpload file) => [file]
  | _ => []
  end.

(** The invariant over a session: that of the state, and that of the
    history each call in flight holds, which is not empty. *)
Definition SessionInvariant (original : option File) (σ : Session) : Prop :=
  HistoryInvariant original (editor (world σ))
  ∧ Forall (λ p, awaitingHistory (continuation p) ≠ []
               ∧ HistoryInvariant original (awaitingState (continuation p)))
      (inFlight σ).

(** The index is in range and the element at index 0, if any, is one of
    the given files. *)
Definition OverUpload (uploads : list File) (s : EditorState) : Prop :=
  ∃ original, HistoryInvariant original s
    ∧ ∀ file, original = Some file → file ∈ uploads.

Definition SessionOverUploads (uploads : list File) (σ : Session) : Prop :=
  OverUpload uploads (editor (world σ))
  ∧ Forall (λ p, awaitingHistory (continuation p) ≠ []
               ∧ OverUpload uploads (awaitingState (continuation p)))
      (inFlight σ).

(** The handler that serves an operation in one piece. *)
Definition actionOf (op : Operation) (image2 : option File) (panelPrompt : string)
    (reply : Outcome GeminiService.GenerateContentResponse) (now : Z) : Action :=
  match op with
  | opEdit => Generate reply now
  | opFilter => ApplyFilter reply now
  | opAdjust => ApplyAdjustment reply now
  | opCombine => Combine image2 panelPrompt reply now
  | opExpand => ExpandImage reply now
  end.

(** The files handed to [handleImageUpload] in the run. *)
Definition uploadedFiles (events : list Event) : list File :=
  events ≫= uploadOf.

End Interleaving.

(** ** Reading a response the way the spec words it *)

Module ResponseSpec.

Import GeminiService.

(** The response carries a block reason, with its optional message. *)
Definition Blocked (response : GenerateContentResponse)
    (reason : string) (message : option string) : Prop :=
  ∃ feedback, promptFeedback response = Some feedback
    ∧ blockReason feedback = Some reason ∧ reason ≠ ""
    ∧ message = blockReasonMessage feedback.

Definition NotBlocked (response : GenerateContentResponse) : Prop :=
  ∀ feedback reason, promptFeedback response = Some feedback →
    blockReason feedback = Some reason → reason = "".

Definition firstCandidate (response : GenerateContentResponse) : option Candidate :=
  candidates response ≫= head.

Definition partsOf (candidate : option Candidate) : list Part :=
  default [] ((candidate ≫= content) ≫= parts).

(** [blob] is the first inline payload among the parts of [candidate]. *)
Definition FirstImage (candidate : option Candidate) (blob : Blob) : Prop :=
  ∃ before part after, partsOf candidate = before ++ part :: after
    ∧ Forall (λ p, inlineData p = None) before
    ∧ inlineData part = Some blob.

Definition NoImage (candidate : option Candidate) : Prop :=
  Forall (λ p, inlineData p = None) (partsOf candidate).

(** A finish reason other than the normal ['STOP']. *)
Definition AbnormalFinish (candidate : option Candidate) (reason : string) : Prop :=
  candidate ≫= finishReason = Some reason ∧ reason ≠ "" ∧ reason ≠ "STOP".

Definition NormalFinish (candidate : option Candidate) : Prop :=
  ∀ reason, candidate ≫= finishReason = Some reason → reason = "" ∨ reason = "STOP".

(** The failure kinds of the spec, told apart by the message thrown. *)
Definition PolicyBlocked (result : Outcome string) : Prop :=
  ∃ reason message, result = throwError (blockedMessage reason message).

Definition AbnormalCompletion (result : Outcome string) : Prop :=
  ∃ context reason, result = throwError (abnormalMessage context reason).

Definition NoImageReturned (result : Outcome string) : Prop :=
  ∃ context textFeedback, result = throwError (noImageMessage context textFeedback).

End ResponseSpec.

(** ** Concrete inputs used by the examples below *)

Module Examples.

Import GeminiService FileHelpers EditorView.

Definition fileA : File := mkFile "a.png" "image/png" "AAAA".
Definition fileB : File := mkFile "b.png" "image/png" "BBBB".
Definition fileC : File := mkFile "c.png" "image/png" "CCCC".
Definition fileD : File := mkFile "d.png" "image/png" "DDDD".

Definition pngBlob : Blob := mkBlob (Some "image/png") (Some "AAAA").
Definition textPart : Part := mkPart None.
Definition imagePart : Part := mkPart (Some pngBlob).

Definition candidateWith (l : list Part) (finish : string) : Candidate :=
  mkCandidate (Some (mkContent (Some l))) (Some finish).

(** A block reason and an image payload in one response. *)
Definition blockedWithImage : GenerateContentResponse :=
  mkResponse (Some (mkPromptFeedback (Some "SAFETY") None))
    (Some [candidateWith [textPart; imagePart] "STOP"]) None.

Definition imageAfterText : GenerateContentResponse :=
  mkResponse None (Some [candidateWith [textPart; imagePart] "STOP"]) None.

Definition safetyNoImage : GenerateContentResponse :=
  mkResponse None (Some [candidateWith [textPart] "safety"]) None.

Definition textOnly : GenerateContentResponse :=
  mkResponse None (Some [candidateWith [textPart] "STOP"]) (Some " Sorry. ").

(** The first candidate has no image, the second one has. *)
Definition imageInSecondCandidate : GenerateContentResponse :=
  mkResponse None
    (Some [candidateWith [textPart] "STOP"; candidateWith [imagePart] "STOP"])
    None.

Definition blockedImageInSecondCandidate : GenerateContentResponse :=
  mkResponse (Some (mkPromptFeedback (Some "SAFETY") None))
    (Some [candidateWith [textPart] "STOP"; candidateWith [imagePart] "STOP"])
    None.

(** A stand-in for [dataURLtoFile]: it accepts the URLs that start with
    the [data:] scheme. *)
Definition decodeDataUrl (url fileName : string) : Outcome File :=
  if String.prefix "data:" url
  then Resolved (mkFile fileName "image/png" url)
  else throwError "Invalid data URL".

Definition appOf (userId : string) : App.AppState :=
  App.mkAppState None (Some userId) false App.initialUsers.

Definition editorOf (l : list File) (i : Z) (hotspot : option Hotspot) : EditorState :=
  mkEditorState l i false None "make it blue" hotspot hotspot tabRetouch None None.

Definition someHotspot : Hotspot := mkHotspot 5 7.

(** Bob (15 credits, standard role) and Alice (admin) with one uploaded
    image. *)
Definition bobWorld : World := mkWorld (appOf "u002") (editorOf [fileA] 0 None).
Definition aliceWorld : World := mkWorld (appOf "u001") (editorOf [fileA] 0 None).

Definition goodReply : Outcome GenerateContentResponse := Resolved imageAfterText.




Definition bob : App.User :=
  App.mkUser "u002" "bob@example.com" (Some "password123") 15 true App.user.




(** Bob uploads [A], applies a filter and selects a place on the
    filtered image. *)
Definition hotspotSelectedEvents : list Interleaving.Event :=
  [Interleaving.Handler (ImageUpload fileA);
   Interleaving.SelectTab tabFilters;
   Interleaving.Handler (ApplyFilter goodReply 1700000000000);
   Interleaving.SelectTab tabRetouch;
   Interleaving.ImageClick someHotspot someHotspot;
   Interleaving.TypePrompt "make it blue"].

Definition hotspotSelected : World :=
  Interleaving.world
    (Interleaving.runSession decodeDataUrl hotspotSelectedEvents
       (Interleaving.mounted (appOf "u002"))).

(** The history [A, B, C] with the index on [C]. *)
Definition historyABC : EditorState := editorOf [fileA; fileB; fileC] 2 None.

(** One upload, with a hotspot selected on it. *)
Definition uploadedWithHotspot : EditorState :=
  editorOf [fileA] 0 (Some someHotspot).

(** The same with a prompt that is one NO-BREAK SPACE. *)
Definition blankPrompt : string := String (ascii_of_nat 160) EmptyString.

Definition blankPromptWorld : World :=
  mkWorld (appOf "u002") (setPrompt blankPrompt uploadedWithHotspot).

End Examples.


(** ** services/geminiService.ts: [fileToPart] *)

Module FileToPart.

(** [s.split(sep)] for a one-character separator: the segments between
    the separators, the empty ones included. *)
Fixpoint split (sep : ascii) (s : string) : list string :=
  match s with
  | EmptyString => [EmptyString]
  | String c rest =>
      if Ascii.eqb c sep then EmptyString :: split sep rest
      else match split sep rest with
           | segment :: segments => String c segment :: segments
           | [] => [String c EmptyString]
           end
  end.

(** What the dot of a regular expression does not match: the line
    terminators, of which LF and CR are the ones an 8-bit string has. *)
Definition isLineTerminator (c : ascii) : bool :=
  match N_of_ascii c with
  | 10%N | 13%N => true
  | _ => false
  end.

(** The lazy group followed by the semicolon of [/:(.*?);/], tried right
    after a colon: the text up to the first semicolon, unless a line
    terminator or the end of the string comes before it. *)
Fixpoint upToSemicolon (s : string) : option string :=
  match s with
  | EmptyString => None
  | String c rest =>
      if Ascii.eqb c ";" then Some EmptyString
      else if isLineTerminator c then None
      else String c <$> upToSemicolon rest
  end.

(** Group 1 of [s.match(/:(.*?);/)]: the match is tried at each colon from
    the left, and the first colon where it succeeds gives the group;
    [None] is the [null] of a failed match. *)
Fixpoint matchMime (s : string) : option string :=
  match s with
  | EmptyString => None
  | String c rest =>
      if Ascii.eqb c ":" then
        match upToSemicolon rest with
        | Some group => Some group
        | None => matchMime rest
        end
      else matchMime rest
  end.

(** [{ inlineData: { mimeType, data } }] *)
Record InlineDataPart : Type := mkInlineDataPart {
  mimeType : string;
  data : string
}.

(** [readAsDataURL] is how the [FileReader] settled: with the data URL of
    the file, or with the event passed to [reader.onerror]. *)
Definition fileToPart (readAsDataURL : Outcome string) : Outcome InlineDataPart :=
  match readAsDataURL with
  | Rejected thrown => Rejected thrown
  | Resolved dataUrl =>
      let arr := split "," dataUrl in
      if (length arr <? 2)%nat then throwError "Invalid data URL"
      else
        match matchMime (default "" (arr !! 0%nat)) with
        | None => throwError "Could not parse MIME type from data URL"
        | Some group =>
            if negb (truthy (Some group)) then
              throwError "Could not parse MIME type from data URL"
            else
              Resolved (mkInlineDataPart group (default "" (arr !! 1%nat)))
        end
  end.

(** [s.includes(c)] for one character. *)
Fixpoint includes (c : ascii) (s : string) : bool :=
  match s with
  | EmptyString => false
  | String c' rest => Ascii.eqb c' c || includes c rest
  end.

End FileToPart.

(** ** App.tsx: the session, the user table and the transactions *)

Module AppShell.

Import App.

Record Transaction : Type := mkTransaction {
  txId : string;
  userId : string;
  userEmail : string;
  creditsAmount : Z;
  price : string;
  screenshotDataUrl : string;
  timestamp : string
}.

(** The [App] state with the route and the pending transactions. [route]
    is the location hash without its number sign: an assignment to
    [window.location.hash] reaches it through the [hashchange] listener. *)
Record ShellState : Type := mkShellState {
  core : AppState;
  route : string;
  pendingTransactions : list Transaction
}.

Definition onCore (f : AppState → AppState) (sh : ShellState) : ShellState :=
  mkShellState (f (core sh)) (route sh) (pendingTransactions sh).

Definition setRoute (v : string) (sh : ShellState) : ShellState :=
  mkShellState (core sh) v (pendingTransactions sh).

Definition setPendingTransactions (f : list Transaction → list Transaction)
    (sh : ShellState) : ShellState :=
  mkShellState (core sh) (route sh) (f (pendingTransactions sh)).

Definition setCurrentUserId (v : option string) (st : AppState) : AppState :=
  mkAppState (error st) v (showPaywall st) (users st).

Definition withEnabled (u : User) (e : bool) : User :=
  mkUser (id u) (email u) (password u) (credits u) e (role u).

Definition withPassword (u : User) (p : option string) : User :=
  mkUser (id u) (email u) p (credits u) (isEnabled u) (role u).

Definition handleToggleUserStatus (userId : string) (st : AppState) : AppState :=
  setUsers
    (map (λ u,
       if String.eqb (id u) userId
       then withEnabled u (negb (isEnabled u))
       else u))
    st.

(** [u.password === password]: an absent password equals no string. *)
Definition passwordIs (u : User) (p : string) : bool :=
  match password u with
  | Some q => String.eqb q p
  | None => false
  end.

Definition invalidLoginMessage : string := "Invalid email or password.".

Definition handleLogin (loginEmail loginPassword : string)
    (sh : ShellState) : bool * ShellState :=
  match find (λ u, String.eqb (email u) loginEmail && passwordIs u loginPassword)
          (users (core sh)) with
  | Some found =>
      let sh1 := onCore (setCurrentUserId (Some (id found))) sh in
      let sh2 := if Role_eqb (role found) admin then setRoute "admin" sh1 else sh1 in
      (true, onCore (setError None) sh2)
  | None => (false, onCore (setError (Some invalidLoginMessage)) sh)
  end.

Definition handleLogout (sh : ShellState) : ShellState :=
  setRoute "" (onCore (setCurrentUserId None) sh).

(** [screenshot] is how [fileToDataUrl] settled, [now] and [isoNow] are
    [Date.now()] and [new Date().toISOString()]. A rejected read leaves the
    handler before its setter call. *)
Definition handleSubmitForReview (amount : Z) (packagePrice : string)
    (screenshot : Outcome string) (now : Z) (isoNow : string)
    (sh : ShellState) : ShellState :=
  match currentUser (core sh), screenshot with
  | Some cu, Resolved url =>
      setPendingTransactions
        (λ prev, prev ++ [mkTransaction ("tx_" +:+ pretty now) (id cu) (email cu)
                            amount packagePrice url isoNow])
        sh
  | _, _ => sh
  end.

Definition handleRejectTransaction (rejected : string) (sh : ShellState) : ShellState :=
  setPendingTransactions
    (filter (λ tx, negb (String.eqb (txId tx) rejected))) sh.

Definition handleApproveTransaction (approved : string) (creditsToAdd : Z)
    (sh : ShellState) : ShellState :=
  match find (λ tx, String.eqb (txId tx) approved) (pendingTransactions sh) with
  | Some txToApprove =>
      setPendingTransactions
        (filter (λ tx, negb (String.eqb (txId tx) approved)))
        (onCore (updateUserCredits (userId txToApprove) creditsToAdd) sh)
  | None => sh
  end.

(** What the [users] effect writes to local storage: the table without
    the passwords. *)
Record SavedUser : Type := mkSavedUser {
  saved_id : string;
  saved_email : string;
  saved_credits : Z;
  saved_isEnabled : bool;
  saved_role : Role
}.

Definition usersToSave (table : list User) : list SavedUser :=
  map (λ u, mkSavedUser (id u) (email u) (credits u) (isEnabled u) (role u)) table.

(** The initialiser of the [users] state: [savedUsers] is the table found
    in local storage, if any, after [JSON.parse]; each saved user gets the
    password of the initial user with the same id, if there is one. *)
Definition loadUsers (savedUsers : option (list SavedUser)) : list User :=
  match savedUsers with
  | Some parsedUsers =>
      map (λ s,
         mkUser (saved_id s) (saved_email s)
           (find (λ iu, String.eqb (id iu) (saved_id s)) initialUsers ≫= password)
           (saved_credits s) (saved_isEnabled s) (saved_role s))
        parsedUsers
  | None => initialUsers
  end.

End AppShell.

(** ** views/LoginPage.tsx, components/PaywallModal.tsx and
    components/AdminDashboard.tsx *)

Module LoginPage.

Import AppShell.

Definition missingCredentialsMessage : string :=
  "Please enter both email and password.".

(** [handleSubmit] with the [onLogin] and [setError] props that [App]
    passes: [handleLogin] and the setter of its [error] state. *)
Definition handleSubmit (formEmail formPassword : string)
    (sh : ShellState) : ShellState :=
  let sh1 := onCore (App.setError None) sh in
  if negb (truthy (Some formEmail)) || negb (truthy (Some formPassword)) then
    onCore (App.setError (Some missingCredentialsMessage)) sh1
  else
    (handleLogin formEmail formPassword sh1).2.

End LoginPage.

Module PaywallModal.

Import AppShell.

Record Package : Type := mkPackage {
  credits : Z;
  price : string
}.

Definition packages : list Package :=
  [ mkPackage 1 "10 EGP"; mkPackage 15 "100 EGP" ].

Record ModalState : Type := mkModalState {
  selectedPackage : option Package;
  screenshot : option FileHelpers.File;
  isSubmitted : bool
}.

(** [handleSubmit] with [handleSubmitForReview] as its [onSubmitForReview]
    prop; [read] is how the reading of the screenshot settled. *)
Definition handleSubmit (read : Outcome string) (now : Z) (isoNow : string)
    (m : ModalState) (sh : ShellState) : ModalState * ShellState :=
  match selectedPackage m, screenshot m with
  | Some chosen, Some _ =>
      (mkModalState (selectedPackage m) (screenshot m) true,
       handleSubmitForReview (credits chosen) (price chosen) read now isoNow sh)
  | _, _ => (m, sh)
  end.

End PaywallModal.

Module AdminDashboard.

Import AppShell.

(** [users.reduce((sum, user) => sum + (user.credits < 3 ? (3-user.credits) : 0), 0)] *)
Definition totalGenerations (table : list App.User) : Z :=
  foldl (λ sum u, sum + (if App.credits u <? 3 then 3 - App.credits u else 0)) 0 table.

(** The Approve and Reject buttons of a row of the transactions table. *)
Definition approveClick (tx : Transaction) (sh : ShellState) : ShellState :=
  handleApproveTransaction (txId tx) (creditsAmount tx) sh.

Definition rejectClick (tx : Transaction) (sh : ShellState) : ShellState :=
  handleRejectTransaction (txId tx) sh.

End AdminDashboard.

(** ** Vocabulary for the properties of the stored user table *)

Module Persistence.

Import App AppShell.

(** Every user of the table has the password of the initial user with the
    same id (or none, if there is no such initial user). *)
Definition PasswordsAsInitial (table : list User) : Prop :=
  Forall (λ u,
    password u
    = find (λ iu, String.eqb (id iu) (id u)) initialUsers ≫= password)
    table.

(** What a user with balance [c] adds to [totalGenerations]. *)
Definition countedGenerations (c : Z) : Z :=
  if c <? 3 then 3 - c else 0.

End Persistence.

(** ** More concrete inputs *)

Module MoreExamples.

Import AppShell.

Definition shellOf (current : option string) (pending : list Transaction) : ShellState :=
  mkShellState (App.mkAppState None current false App.initialUsers) "" pending.

(** Charlie (no credit) asks for the package of 15 credits. *)
Definition charlieTx : Transaction :=
  mkTransaction "tx_1700000000000" "u003" "charlie@example.com" 15 "100 EGP"
    "data:image/png;base64,SHOT" "2023-11-14T22:13:20.000Z".

(** The paywall with the package of 15 credits and a screenshot chosen. *)
Definition readyModal : PaywallModal.ModalState :=
  PaywallModal.mkModalState (Some (PaywallModal.mkPackage 15 "100 EGP"))
    (Some Examples.fileA) false.

(** Charlie, out of credit, with one uploaded image. *)
Definition charlieWorld : EditorView.World :=
  EditorView.mkWorld (Examples.appOf "u003")
    (Examples.editorOf [Examples.fileA] 0 None).

End MoreExamples.

(** ** Vocabulary for the properties of the generation handlers *)

Module Accounting.

Import EditorView.

(** The five actions that call the endpoint. *)
Definition isGeneration (a : Action) : bool :=
  match a with
  | Generate _ _ | ApplyFilter _ _ | ApplyAdjustment _ _
  | Combine _ _ _ _ | ExpandImage _ _ => true
  | _ => false
  end.

(** [u'] is the user [u] after some debits: the same account with a
    balance that has not grown and is not negative. *)
Definition DebitedFrom (u u' : App.User) : Prop :=
  App.id u' = App.id u ∧ App.email u' = App.email u
  ∧ App.password u' = App.password u ∧ App.role u' = App.role u
  ∧ App.isEnabled u' = App.isEnabled u
  ∧ 0 ≤ App.credits u' ≤ App.credits u.

(** What an editor action may do to the [App] state: keep the session
    and the user table, or debit one credit from the current user, who is
    of the standard role and had credit left. *)
Definition AppAfterAction (st st' : App.AppState) : Prop :=
  App.currentUserId st' = App.currentUserId st
  ∧ (App.users st' = App.users st
     ∨ ∃ cu, App.currentUser st = Some cu ∧ App.role cu = App.user
         ∧ 0 < App.credits cu
         ∧ App.users st' = App.users (App.updateUserCredits (App.id cu) (-1) st)).

End Accounting.
(** * Properties *)

(** ** Response normalisation *)

Section ResponseNormalisation.

Import GeminiService ResponseSpec.

Lemma truthy_Some (s : string) : truthy (Some s) = true ↔ s ≠ "".
Proof.
  unfold truthy. destruct (String.eqb_spec s ""); simpl; split; congruence.
Qed.

Lemma truthy_false_inv (v : option string) :
  truthy v = false → ∀ s, v = Some s → s = "".
Proof.
  intros Hv s ->. destruct (String.eqb_spec s "") as [|Hne]; [done|].
  apply truthy_Some in Hne. congruence.
Qed.

(** The three message families start with different letters. *)
Lemma blocked_not_abnormal reason message context reason' :
  blockedMessage reason message ≠ abnormalMessage context reason'.
Proof. discriminate. Qed.

Lemma blocked_not_noImage reason message context textFeedback :
  blockedMessage reason message ≠ noImageMessage context textFeedback.
Proof. discriminate. Qed.

Lemma abnormal_not_noImage context reason context' textFeedback :
  abnormalMessage context reason ≠ noImageMessage context' textFeedback.
Proof. discriminate. Qed.

Lemma PolicyBlocked_exclusive result :
  PolicyBlocked result → ¬ AbnormalCompletion result ∧ ¬ NoImageReturned result.
Proof.
  intros (reason & message & ->). split.
  - by intros (c & r & [=]).
  - by intros (c & t & [=]).
Qed.

Lemma AbnormalCompletion_not_NoImageReturned result :
  AbnormalCompletion result → ¬ NoImageReturned result.
Proof.
  by intros (c & r & ->) (c' & t & [=]).
Qed.

Lemma find_first_image (before after : list Part) part blob :
  Forall (λ p, inlineData p = None) before →
  inlineData part = Some blob →
  find hasInlineData (before ++ part :: after) = Some part.
Proof.
  intros Hbefore Hpart. induction Hbefore as [|p before Hp _ IH]; simpl.
  - unfold hasInlineData. by rewrite Hpart.
  - unfold hasInlineData at 1. by rewrite Hp.
Qed.

Lemma find_no_image (l : list Part) :
  Forall (λ p, inlineData p = None) l → find hasInlineData l = None.
Proof.
  induction 1 as [|p l Hp _ IH]; simpl; [done|].
  unfold hasInlineData at 1. by rewrite Hp.
Qed.

(** The scan of step 2, in the words of [ResponseSpec]. *)
Lemma scan_first_image response blob :
  FirstImage (firstCandidate response) blob →
  ((((candidates response ≫= head) ≫= content) ≫= parts) ≫= find hasInlineData)
    ≫= inlineData = Some blob.
Proof.
  intros (before & part & after & Hparts & Hbefore & Hpart).
  unfold partsOf, firstCandidate in Hparts.
  destruct (((candidates response ≫= head) ≫= content) ≫= parts) as [l|];
    simpl in *; [|by destruct before].
  subst l. by rewrite (find_first_image _ _ _ blob).
Qed.

Lemma scan_no_image response :
  NoImage (firstCandidate response) →
  ((((candidates response ≫= head) ≫= content) ≫= parts) ≫= find hasInlineData)
    ≫= inlineData = None.
Proof.
  unfold NoImage, partsOf, firstCandidate. intros Hno.
  destruct (((candidates response ≫= head) ≫= content) ≫= parts) as [l|];
    simpl in *; [|done].
  by rewrite find_no_image.
Qed.

Lemma blocked_step response context reason message :
  Blocked response reason message →
  handleApiResponse response context = throwError (blockedMessage reason message).
Proof.
  intros (feedback & Hfb & Hreason & Hne & ->). unfold handleApiResponse.
  rewrite Hfb. simpl. rewrite Hreason.
  apply truthy_Some in Hne. by rewrite Hne.
Qed.

Lemma not_blocked_step response :
  NotBlocked response → truthy (promptFeedback response ≫= blockReason) = false.
Proof.
  intros Hnb. destruct (promptFeedback response) as [feedback|] eqn:Hfb; [|done].
  simpl. destruct (blockReason feedback) as [reason|] eqn:Hreason; [|done].
  by rewrite (Hnb feedback reason).
Qed.

Lemma image_step response context blob :
  NotBlocked response → FirstImage (firstCandidate response) blob →
  handleApiResponse response context = Resolved (dataUrl blob).
Proof.
  intros Hnb Himg. unfold handleApiResponse.
  by rewrite (not_blocked_step _ Hnb), (scan_first_image _ _ Himg).
Qed.

Lemma abnormal_step response context reason :
  NotBlocked response → NoImage (firstCandidate response) →
  AbnormalFinish (firstCandidate response) reason →
  handleApiResponse response context = throwError (abnormalMessage context reason).
Proof.
  intros Hnb Hno (Hfinish & Hne & Hstop). unfold handleApiResponse.
  rewrite (not_blocked_step _ Hnb), (scan_no_image _ Hno).
  unfold firstCandidate in Hfinish. rewrite Hfinish.
  apply truthy_Some in Hne. rewrite Hne. simpl.
  by destruct (String.eqb_spec reason "STOP").
Qed.

Lemma no_image_step response context :
  NotBlocked response → NoImage (firstCandidate response) →
  NormalFinish (firstCandidate response) →
  handleApiResponse response context
    = throwError (noImageMessage context (trim <$> text response)).
Proof.
  intros Hnb Hno Hnormal. unfold handleApiResponse.
  rewrite (not_blocked_step _ Hnb), (scan_no_image _ Hno).
  unfold NormalFinish, firstCandidate in Hnormal.
  destruct ((candidates response ≫= head) ≫= finishReason) as [reason|]; [|done].
  destruct (Hnormal reason eq_refl) as [-> | ->]; done.
Qed.

End ResponseNormalisation.

Section ResponseClassification.

Import GeminiService ResponseSpec.

(** C1. [handleApiResponse] classifies every response in a fixed order.
    A response that carries a block reason fails with the blocked message,
    whatever its candidates hold, an image payload included. Otherwise the
    first inline payload found by the scan makes the call succeed with the
    data URL built from it. Otherwise a finish reason other than ['STOP']
    makes it fail with the stopped-unexpectedly message, which is not a
    no-image message. Otherwise it fails with the no-image message, which
    quotes the trimmed text of the response when there is one. *)
Theorem handleApiResponse_classification_order
    (response : GenerateContentResponse) (context : string) :
  (∀ reason message, Blocked response reason message →
     handleApiResponse response context = throwError (blockedMessage reason message)
     ∧ PolicyBlocked (handleApiResponse response context))
  ∧ (NotBlocked response →
     ∀ blob, FirstImage (firstCandidate response) blob →
       handleApiResponse response context = Resolved (dataUrl blob))
  ∧ (NotBlocked response → NoImage (firstCandidate response) →
     ∀ reason, AbnormalFinish (firstCandidate response) reason →
       handleApiResponse response context = throwError (abnormalMessage context reason)
       ∧ AbnormalCompletion (handleApiResponse response context)
       ∧ ¬ NoImageReturned (handleApiResponse response context))
  ∧ (NotBlocked response → NoImage (firstCandidate response) →
     NormalFinish (firstCandidate response) →
       handleApiResponse response context
         = throwError (noImageMessage context (trim <$> text response))
       ∧ NoImageReturned (handleApiResponse response context)).
Proof.
  repeat split.
  - by apply blocked_step.
  - intros. exists reason, message. by apply blocked_step.
  - intros. by apply image_step.
  - by apply abnormal_step.
  - exists context, reason. by apply abnormal_step.
  - apply AbnormalCompletion_not_NoImageReturned.
    exists context, reason. by apply abnormal_step.
  - by apply no_image_step.
  - eexists _, _. by apply no_image_step.
Qed.

Lemma handleApiResponse_classification_order_witness :
  handleApiResponse Examples.blockedWithImage "edit"
    = throwError "Request was blocked. Reason: SAFETY. "
  ∧ handleApiResponse Examples.imageAfterText "edit"
    = Resolved "data:image/png;base64,AAAA"
  ∧ handleApiResponse Examples.safetyNoImage "edit"
    = throwError (abnormalMessage "edit" "safety")
  ∧ handleApiResponse Examples.textOnly "edit"
    = throwError (noImageMessage "edit" (Some "Sorry.")).
Proof.
  assert (Hnb : ∀ cs t, NotBlocked (mkResponse None cs t))
    by (intros cs t feedback reason [=]).
  split; [|split; [|split]].
  - destruct (handleApiResponse_classification_order
Examples.blockedWithImage "edit") as (Hblocked & _).
apply (Hblocked "SAFETY" None).
eexists. repeat split. discriminate.
- destruct (handleApiResponse_classification_order
Examples.imageAfterText "edit") as (_ & Himage & _).
apply (Himage (Hnb _ _) Examples.pngBlob).
exists [Examples.textPart], Examples.imagePart, [].
repeat split. by repeat constructor.
- destruct (handleApiResponse_classification_order
Examples.safetyNoImage "edit") as (_ & _ & Habnormal & _).
apply (Habnormal (Hnb _ _)); [by repeat constructor|].
repeat split; discriminate.
- destruct (handleApiResponse_classification_order
Examples.textOnly "edit") as (_ & _ & _ & Hnone).
apply Hnone; [apply Hnb | by repeat constructor |].
intros reason [= <-]. by right.
Defined.

(** Only the first candidate is read: the candidates after it do not
    change the result. *)
Lemma handleApiResponse_first_candidate_only feedback candidate rest rest' txt context :
  handleApiResponse (mkResponse feedback (Some (candidate :: rest)) txt) context
  = handleApiResponse (mkResponse feedback (Some (candidate :: rest')) txt) context.
Proof. reflexivity. Qed.

(** C10, as stated, fails: a response whose first candidate has no inline
    image, whose second candidate has one, and which carries a block
    reason fails with the blocked message, which is neither the
    stopped-unexpectedly nor the no-image message. *)
Lemma first_candidate_without_image_may_be_blocked :
  NoImage (firstCandidate Examples.blockedImageInSecondCandidate)
  ∧ handleApiResponse Examples.blockedImageInSecondCandidate "edit"
      = throwError "Request was blocked. Reason: SAFETY. "
  ∧ ¬ AbnormalCompletion
        (handleApiResponse Examples.blockedImageInSecondCandidate "edit")
  ∧ ¬ NoImageReturned
        (handleApiResponse Examples.blockedImageInSecondCandidate "edit").
Proof.
  split; [by repeat constructor|]. split; [reflexivity|].
  apply PolicyBlocked_exclusive. by exists "SAFETY", None.
Qed.

(** C10, amended. Only the first candidate of a response is inspected.
    When it has no inline image data the call fails, whatever the later
    candidates hold: with the blocked message when the response carries a
    block reason, otherwise with the stopped-unexpectedly message when the
    first candidate has a finish reason other than ['STOP'], otherwise
    with the no-image message. *)
Theorem handleApiResponse_first_candidate_without_image
    (response : GenerateContentResponse) (context : string) :
  NoImage (firstCandidate response) →
  (∃ thrown, handleApiResponse response context = Rejected thrown)
  ∧ (PolicyBlocked (handleApiResponse response context)
     ∧ (∃ reason message, Blocked response reason message)
     ∨ NotBlocked response
       ∧ (AbnormalCompletion (handleApiResponse response context)
          ∧ (∃ reason, AbnormalFinish (firstCandidate response) reason)
          ∨ NoImageReturned (handleApiResponse response context)
            ∧ NormalFinish (firstCandidate response)))
  ∧ (∀ feedback candidate rest txt,
       response = mkResponse feedback (Some (candidate :: rest)) txt →
       ∀ rest', handleApiResponse response context
                = handleApiResponse
                    (mkResponse feedback (Some (candidate :: rest')) txt) context).
Proof.
  intros Hno.
  assert (Hcases :
    (∃ reason message, Blocked response reason message) ∨ NotBlocked response).
  { unfold Blocked, NotBlocked.
    destruct (promptFeedback response) as [feedback|]; [|by right].
    destruct (blockReason feedback) as [reason|] eqn:Hreason.
    - destruct (String.eqb_spec reason "") as [->|Hne].
      + right. intros f r [= <-]. rewrite Hreason. by intros [= <-].
      + left. by exists reason, (blockReasonMessage feedback), feedback.
    - right. intros f r [= <-]. by rewrite Hreason. }
  assert (Hfinish :
    (∃ reason, AbnormalFinish (firstCandidate response) reason)
    ∨ NormalFinish (firstCandidate response)).
  { unfold AbnormalFinish, NormalFinish.
    destruct (firstCandidate response ≫= finishReason) as [reason|];
      [|by right].
    destruct (String.eqb_spec reason "") as [->|Hne];
      [right; intros ? [= <-]; by left|].
    destruct (String.eqb_spec reason "STOP") as [->|Hstop];
      [right; intros ? [= <-]; by right|].
    left. by exists reason. }
  split; [|split].
  - destruct Hcases as [(reason & message & Hb)|Hnb].
    + eexists. by apply blocked_step.
    + destruct Hfinish as [(reason & Hab)|Hnormal].
      * eexists. by apply abnormal_step.
      * eexists. by apply no_image_step.
  - destruct Hcases as [(reason & message & Hb)|Hnb].
    + left. split; [|by eauto]. exists reason, message. by apply blocked_step.
    + right. split; [done|].
      destruct Hfinish as [(reason & Hab)|Hnormal].
      * left. split; [|by eauto]. exists context, reason. by apply abnormal_step.
      * right. split; [|done]. eexists _, _. by apply no_image_step.
  - by intros feedback candidate rest txt ->.
Qed.

Lemma handleApiResponse_first_candidate_without_image_witness :
  (∃ thrown,
     handleApiResponse Examples.imageInSecondCandidate "edit" = Rejected thrown)
  ∧ NoImageReturned (handleApiResponse Examples.imageInSecondCandidate "edit").
Proof.
  destruct (handleApiResponse_first_candidate_without_image
Examples.imageInSecondCandidate "edit")
as (Hfails & Hkind & _); [by repeat constructor|].
split; [exact Hfails|].
destruct Hkind as [[_ (reason & message & feedback & [=] & _)]
      |[_ [[_ (reason & [=Hr] & _ & Hstop)]|[Hkind _]]]].
- by destruct Hstop; rewrite <- Hr.
- exact Hkind.
Defined.

End ResponseClassification.

(** ** The canvas of the Expand operation *)

Section ExpandGeometry.

Import GeminiService.
Open Scope Q_scope.

(** The values of the four locals of [generateExpandedImage] after its
    [switch], as exact numbers. *)
Lemma expandCanvas_locals (W H : Z) :
  EXPANSION_FACTOR == 0.5
  ∧ (newWidth (expandCanvas W H left) == inject_Z W * 1.5
     ∧ newHeight (expandCanvas W H left) == inject_Z H
     ∧ drawX (expandCanvas W H left) == inject_Z W * 0.5
     ∧ drawY (expandCanvas W H left) == 0
     ∧ drawX (expandCanvas W H left) + inject_Z W
       == newWidth (expandCanvas W H left))
  ∧ (newWidth (expandCanvas W H top) == inject_Z W
     ∧ newHeight (expandCanvas W H top) == inject_Z H * 1.5
     ∧ drawX (expandCanvas W H top) == 0
     ∧ drawY (expandCanvas W H top) == inject_Z H * 0.5
     ∧ drawY (expandCanvas W H top) + inject_Z H
       == newHeight (expandCanvas W H top))
  ∧ (newWidth (expandCanvas W H bottom) == inject_Z W
     ∧ newHeight (expandCanvas W H bottom) == inject_Z H * 1.5
     ∧ drawX (expandCanvas W H bottom) == 0
     ∧ drawY (expandCanvas W H bottom) == 0)
  ∧ (newWidth (expandCanvas W H right) == inject_Z W * 1.5
     ∧ newHeight (expandCanvas W H right) == inject_Z H
     ∧ drawX (expandCanvas W H right) == 0
     ∧ drawY (expandCanvas W H right) == 0).
Proof.
  unfold expandCanvas, EXPANSION_FACTOR; simpl.
  repeat split; try reflexivity; ring.
Qed.

Example expandCanvas_left_800_600 :
  newWidth (expandCanvas 800 600 left) == 1200
  ∧ newHeight (expandCanvas 800 600 left) == 600
  ∧ drawX (expandCanvas 800 600 left) == 400
  ∧ drawY (expandCanvas 800 600 left) == 0.
Proof. by vm_compute. Qed.

Lemma toUnsignedLong_extended (n : Z) :
  (0 ≤ n)%Z → (n + n / 2 ≤ 2147483647)%Z →
  toUnsignedLong (inject_Z n + inject_Z n * EXPANSION_FACTOR) = (n + n / 2)%Z.
Proof.
  intros Hn Hmax. unfold toUnsignedLong.
  change (Qnum (inject_Z n + inject_Z n * EXPANSION_FACTOR))
    with (n * 10 + n * 5 * 1)%Z.
  change (Z.pos (Qden (inject_Z n + inject_Z n * EXPANSION_FACTOR))) with 10%Z.
  change (2 ^ 32)%Z with 4294967296%Z.
  rewrite Z.quot_div_nonneg by lia.
  Z.to_euclidean_division_equations; lia.
Qed.

(** A dimension extended by half is cut to an integer by the canvas. *)
Lemma setDimension_extended (default n : Z) :
  (0 ≤ n)%Z → (n + n / 2 ≤ 2147483647)%Z →
  setDimension default (inject_Z n + inject_Z n * EXPANSION_FACTOR)
  = (n + n / 2)%Z.
Proof.
  intros Hn Hmax. unfold setDimension.
  rewrite toUnsignedLong_extended by done.
  destruct (Z.leb_spec (n + n / 2) 2147483647); [reflexivity|lia].
Qed.

Lemma setDimension_kept (default n : Z) :
  (0 ≤ n ≤ 2147483647)%Z → setDimension default (inject_Z n) = n.
Proof.
  intros Hn. unfold setDimension, toUnsignedLong.
  change (Qnum (inject_Z n)) with n. change (Z.pos (Qden (inject_Z n))) with 1%Z.
  change (2 ^ 32)%Z with 4294967296%Z.
  rewrite Z.quot_1_r, Z.mod_small by lia.
  destruct (Z.leb_spec n 2147483647); [reflexivity|lia].
Qed.

(** The far edge of the drawn image lies on the edge of the canvas for an
    even dimension and half a pixel beyond it for an odd one. *)
Lemma far_edge (n : Z) :
  inject_Z n * EXPANSION_FACTOR + inject_Z n
  == inject_Z (n + n / 2) + inject_Z (n mod 2) * 0.5.
Proof.
  unfold Qeq, EXPANSION_FACTOR. simpl.
  Z.to_euclidean_division_equations; lia.
Qed.

Lemma even_extended (n : Z) :
  Z.even n = true → inject_Z (n + n / 2) == inject_Z n * 1.5.
Proof.
  intros Heven. unfold Qeq. simpl.
  pose proof (Zmod_even n) as Hmod. rewrite Heven in Hmod.
  Z.to_euclidean_division_equations; lia.
Qed.

(** C6, as stated, fails for an odd width: for a
    source image 3 wide and 2 high, expanding to the left composes a canvas
    4 wide, not 4.5, and the original drawn from [x = 1.5] ends at 4.5,
    half a pixel beyond the canvas. *)
Lemma odd_width_is_cut_to_an_integer :
  width (canvas (composeExpanded 3 2 left)) = 4%Z
  ∧ ¬ (inject_Z (width (canvas (composeExpanded 3 2 left))) == inject_Z 3 * 1.5)
  ∧ imageX (composeExpanded 3 2 left) == inject_Z 3 * 0.5
  ∧ imageX (composeExpanded 3 2 left) + inject_Z 3 == 4.5
  ∧ ¬ (imageX (composeExpanded 3 2 left) + inject_Z 3
       == inject_Z (width (canvas (composeExpanded 3 2 left)))).
Proof. repeat split; done. Qed.

(** C6, amended. For a source image of width [W] and height [H] (natural
    numbers whose extension fits a canvas dimension), expanding to the
    left composes a canvas of width [W * 1.5] cut to an integer, that is
    [W + W / 2] with the integer quotient, and of height [H], and draws the
    original with its left edge at [x = W * 0.5]. The width is [W * 1.5]
    exactly when [W] is even; for an odd [W] the right edge of the
    original lies half a pixel beyond the canvas. The expansion factor is
    the constant 0.5, and the direction decides the canvas edge the
    original sits against: the bottom edge for [top] (the blank space is
    above), the top edge for [bottom], the right edge for [left] and the
    left edge for [right]. *)
Theorem composeExpanded_geometry (W H : Z) :
  (0 ≤ W)%Z → (0 ≤ H)%Z →
  (W + W / 2 ≤ 2147483647)%Z → (H + H / 2 ≤ 2147483647)%Z →
  EXPANSION_FACTOR == 0.5
  ∧ (width (canvas (composeExpanded W H left)) = (W + W / 2)%Z
     ∧ height (canvas (composeExpanded W H left)) = H
     ∧ imageX (composeExpanded W H left) == inject_Z W * 0.5
     ∧ imageY (composeExpanded W H left) == 0
     ∧ imageX (composeExpanded W H left) + inject_Z W
       == inject_Z (width (canvas (composeExpanded W H left)))
          + inject_Z (W mod 2) * 0.5
     ∧ (Z.even W = true →
        inject_Z (width (canvas (composeExpanded W H left))) == inject_Z W * 1.5
        ∧ imageX (composeExpanded W H left) + inject_Z W
          == inject_Z (width (canvas (composeExpanded W H left)))))
  ∧ (width (canvas (composeExpanded W H top)) = W
     ∧ height (canvas (composeExpanded W H top)) = (H + H / 2)%Z
     ∧ imageX (composeExpanded W H top) == 0
     ∧ imageY (composeExpanded W H top) == inject_Z H * 0.5
     ∧ imageY (composeExpanded W H top) + inject_Z H
       == inject_Z (height (canvas (composeExpanded W H top)))
          + inject_Z (H mod 2) * 0.5
     ∧ (Z.even H = true →
        inject_Z (height (canvas (composeExpanded W H top))) == inject_Z H * 1.5
        ∧ imageY (composeExpanded W H top) + inject_Z H
          == inject_Z (height (canvas (composeExpanded W H top)))))
  ∧ (width (canvas (composeExpanded W H bottom)) = W
     ∧ height (canvas (composeExpanded W H bottom)) = (H + H / 2)%Z
     ∧ imageX (composeExpanded W H bottom) == 0
     ∧ imageY (composeExpanded W H bottom) == 0
     ∧ (Z.even H = true →
        inject_Z (height (canvas (composeExpanded W H bottom)))
        == inject_Z H * 1.5))
  ∧ (width (canvas (composeExpanded W H right)) = (W + W / 2)%Z
     ∧ height (canvas (composeExpanded W H right)) = H
     ∧ imageX (composeExpanded W H right) == 0
     ∧ imageY (composeExpanded W H right) == 0
     ∧ (Z.even W = true →
        inject_Z (width (canvas (composeExpanded W H right)))
        == inject_Z W * 1.5)).
Proof.
  intros HW HH HWmax HHmax.
  assert (W ≤ 2147483647)%Z by (Z.to_euclidean_division_equations; lia).
  assert (H ≤ 2147483647)%Z by (Z.to_euclidean_division_equations; lia).
  unfold composeExpanded, expandCanvas.
  cbn [canvas width height imageX imageY newWidth newHeight drawX drawY].
  rewrite !setDimension_extended, !setDimension_kept by lia.
  pose proof (far_edge W) as HfarW. pose proof (far_edge H) as HfarH.
  pose proof (even_extended W) as HevenW. pose proof (even_extended H) as HevenH.
  assert (Hmod : ∀ n, Z.even n = true → (n mod 2 = 0)%Z).
  { intros n Hn. by rewrite Zmod_even, Hn. }
  repeat match goal with |- _ ∧ _ => split end;
    try reflexivity; try done; try (unfold EXPANSION_FACTOR; ring);
    try (intros Heven; auto).
  - split; [auto|]. rewrite HfarW, (Hmod W Heven). ring.
  - split; [auto|]. rewrite HfarH, (Hmod H Heven). ring.
Qed.

Lemma composeExpanded_geometry_witness :
  width (canvas (composeExpanded 801 600 left)) = 1201%Z
  ∧ height (canvas (composeExpanded 801 600 left)) = 600%Z
  ∧ imageX (composeExpanded 801 600 left) == 400.5
  ∧ height (canvas (composeExpanded 801 600 top)) = 900%Z
  ∧ imageY (composeExpanded 801 600 top) == 300.
Proof.
  destruct (composeExpanded_geometry 801 600)
    as (_ & (Hwidth & Hheight & Hx & _) & (_ & Htop & _ & Hy & _) & _);
    [lia|lia|by vm_compute|by vm_compute|].
  split; [exact Hwidth|]. split; [exact Hheight|].
  split; [by rewrite Hx|]. split; [exact Htop|]. by rewrite Hy.
Defined.

End ExpandGeometry.

(** ** The generation gate *)

Section Gate.

Import App.

Lemma Role_eqb_spec (a b : Role) : reflect (a = b) (Role_eqb a b).
Proof. destruct a, b; constructor; congruence. Qed.

(** C4. The gate denies with three distinct signals, checked in this
    order: without a current user it returns false and leaves the
    not-logged-in message in the error state; for a disabled account it
    returns false and leaves the disabled message there; for an enabled
    account of the standard role with a balance of zero or less it returns
    false, opens the paywall and leaves the error state as it was. The two
    messages differ, and neither error opens the paywall. An enabled
    standard account with no credit is thus denied by the paywall, and an
    enabled admin account is permitted whatever its balance; a permitted
    call changes nothing. No outcome touches the user table or the
    session. *)
Theorem checkUserCanGenerate_signals (st : AppState) :
  (currentUser st = None →
     checkUserCanGenerate st = (false, setError (Some notLoggedInMessage) st)
     ∧ (checkUserCanGenerate st).1 = false
     ∧ error (checkUserCanGenerate st).2 = Some notLoggedInMessage
     ∧ showPaywall (checkUserCanGenerate st).2 = showPaywall st)
  ∧ (∀ cu, currentUser st = Some cu → isEnabled cu = false →
     checkUserCanGenerate st = (false, setError (Some disabledMessage) st)
     ∧ (checkUserCanGenerate st).1 = false
     ∧ error (checkUserCanGenerate st).2 = Some disabledMessage
     ∧ showPaywall (checkUserCanGenerate st).2 = showPaywall st)
  ∧ (∀ cu, currentUser st = Some cu → isEnabled cu = true →
     role cu = user → credits cu ≤ 0 →
     checkUserCanGenerate st = (false, setShowPaywall true st)
     ∧ (checkUserCanGenerate st).1 = false
     ∧ showPaywall (checkUserCanGenerate st).2 = true
     ∧ error (checkUserCanGenerate st).2 = error st)
  ∧ (∀ cu, currentUser st = Some cu → isEnabled cu = true →
     role cu = admin → checkUserCanGenerate st = (true, st))
  ∧ (∀ cu, currentUser st = Some cu → isEnabled cu = true →
     role cu = user → 0 < credits cu → checkUserCanGenerate st = (true, st))
  ∧ notLoggedInMessage ≠ disabledMessage
  ∧ users (checkUserCanGenerate st).2 = users st
  ∧ currentUserId (checkUserCanGenerate st).2 = currentUserId st
  ∧ notLoggedInMessage = "You must be logged in to generate images."
  ∧ disabledMessage = "Your account has been disabled by an administrator.".
Proof.
  unfold checkUserCanGenerate.
  repeat match goal with |- _ ∧ _ => split end; [..|done|done].
  - by intros ->.
  - by intros cu -> ->.
  - intros cu -> -> -> Hle. simpl.
    by destruct (Z.leb_spec (credits cu) 0); [|lia].
  - by intros cu -> -> ->.
  - intros cu -> -> -> Hlt. simpl.
    by destruct (Z.leb_spec (credits cu) 0); [lia|].
  - discriminate.
  - destruct (currentUser st) as [cu|]; [|done].
    destruct (negb (isEnabled cu)); [done|]. by destruct (_ && _).
  - destruct (currentUser st) as [cu|]; [|done].
    destruct (negb (isEnabled cu)); [done|]. by destruct (_ && _).
Qed.

(** The gate on sessions of the initial user table: Charlie (standard,
    enabled, no credit) meets the paywall and no error message, Alice
    (admin) passes, Diana (disabled) and a missing session get their error
    messages and no paywall. *)
Lemma checkUserCanGenerate_signals_witness :
  ((checkUserCanGenerate (Examples.appOf "u003")).1 = false
   ∧ showPaywall (checkUserCanGenerate (Examples.appOf "u003")).2 = true
   ∧ error (checkUserCanGenerate (Examples.appOf "u003")).2 = None)
  ∧ checkUserCanGenerate (Examples.appOf "u001") = (true, Examples.appOf "u001")
  ∧ ((checkUserCanGenerate (Examples.appOf "u004")).1 = false
     ∧ error (checkUserCanGenerate (Examples.appOf "u004")).2
       = Some "Your account has been disabled by an administrator."
     ∧ showPaywall (checkUserCanGenerate (Examples.appOf "u004")).2 = false)
  ∧ ((checkUserCanGenerate (Examples.appOf "nobody")).1 = false
     ∧ error (checkUserCanGenerate (Examples.appOf "nobody")).2
       = Some "You must be logged in to generate images."
     ∧ showPaywall (checkUserCanGenerate (Examples.appOf "nobody")).2 = false).
Proof.
  split; [|split; [|split]].
  - destruct (checkUserCanGenerate_signals (Examples.appOf "u003"))
      as (_ & _ & Hpaywall & _).
    destruct (Hpaywall
                (mkUser "u003" "charlie@example.com" (Some "password123") 0 true user)
                eq_refl eq_refl eq_refl (Z.le_refl 0))
      as (_ & Hdenied & Hshown & Herror).
    split; [exact Hdenied|]. split; [exact Hshown|]. exact Herror.
  - destruct (checkUserCanGenerate_signals (Examples.appOf "u001"))
      as (_ & _ & _ & Hadmin & _).
    exact (Hadmin
             (mkUser "u001" "alice@example.com" (Some "adminpassword") 999 true admin)
             eq_refl eq_refl eq_refl).
  - destruct (checkUserCanGenerate_signals (Examples.appOf "u004"))
      as (_ & Hdisabled & _).
    destruct (Hdisabled
                (mkUser "u004" "diana@example.com" (Some "password123") 1 false user)
                eq_refl eq_refl)
      as (_ & Hdenied & Herror & Hpaywall).
    split; [exact Hdenied|]. split; [exact Herror|]. exact Hpaywall.
  - destruct (checkUserCanGenerate_signals (Examples.appOf "nobody"))
      as (Hnone & _).
    destruct (Hnone eq_refl) as (_ & Hdenied & Herror & Hpaywall).
    split; [exact Hdenied|]. split; [exact Herror|]. exact Hpaywall.
Defined.

End Gate.

(** ** The history *)

Section History.

Import FileHelpers EditorView.

Lemma at_index_Some (l : list File) (i : Z) (x : File) :
  at_index l i = Some x ↔ 0 ≤ i ∧ l !! Z.to_nat i = Some x.
Proof.
  unfold at_index. destruct (Z.leb_spec 0 i); split; try done; lia || tauto.
Qed.

Lemma at_index_elem_of (l : list File) (i : Z) (x : File) :
  at_index l i = Some x → x ∈ l.
Proof. intros [_ H]%at_index_Some. by eapply list_elem_of_lookup_2. Qed.

Lemma at_index_in_range (l : list File) (i : Z) :
  0 ≤ i ≤ Z.of_nat (length l) - 1 → is_Some (at_index l i).
Proof.
  intros Hi. unfold at_index. destruct (Z.leb_spec 0 i); [|lia].
  apply lookup_lt_is_Some. lia.
Qed.

Lemma addImageToHistory_length (image : File) (l : list File) (i : Z) :
  Z.of_nat (length (addImageToHistory image l i).1)
  = Z.min (Z.max 0 (i + 1)) (Z.of_nat (length l)) + 1.
Proof. simpl. rewrite length_app, length_take. simpl. lia. Qed.

(** [append] on a history whose index is in range. *)
Lemma addImageToHistory_in_range (image : File) (l : list File) (i : Z) :
  0 ≤ i ≤ Z.of_nat (length l) - 1 →
  addImageToHistory image l i = (take (Z.to_nat (i + 1)) l ++ [image], i + 1).
Proof.
  intros Hi. unfold addImageToHistory. f_equal.
  rewrite length_app, length_take. simpl. lia.
Qed.

Lemma addImageToHistory_current (image : File) (l : list File) (i : Z) :
  at_index (addImageToHistory image l i).1 (addImageToHistory image l i).2
  = Some image.
Proof.
  simpl. apply at_index_Some. split.
  - rewrite length_app. simpl. lia.
  - rewrite length_app. simpl.
    replace (Z.to_nat (Z.of_nat (length (take (Z.to_nat (i + 1)) l) + 1) - 1))
      with (length (take (Z.to_nat (i + 1)) l)) by lia.
    by rewrite lookup_app_r, Nat.sub_diag.
Qed.

Lemma addImageToHistory_prefix (image : File) (l : list File) (i j : Z) :
  0 ≤ j ≤ i → i ≤ Z.of_nat (length l) - 1 →
  at_index (addImageToHistory image l i).1 j = at_index l j.
Proof.
  intros Hj Hi. unfold at_index. simpl.
  destruct (Z.leb_spec 0 j); [|done].
  rewrite lookup_app_l by (rewrite length_take; lia).
  apply lookup_take_lt. lia.
Qed.

Lemma append_history (image : File) (s : EditorState) :
  history (append image s) = (addImageToHistory image (history s) (historyIndex s)).1
  ∧ historyIndex (append image s)
    = (addImageToHistory image (history s) (historyIndex s)).2.
Proof. done. Qed.

(** Navigation never touches the sequence. *)
Lemma handleUndo_history s : history (handleUndo s) = history s.
Proof. unfold handleUndo. by destruct (canUndo s). Qed.

Lemma handleRedo_history s : history (handleRedo s) = history s.
Proof. unfold handleRedo. by destruct (canRedo s). Qed.

Lemma handleReset_history s : history (handleReset s) = history s.
Proof. unfold handleReset. by destruct (0 <? _). Qed.

Lemma navigation_history dataURLtoFile (a : Action) (w : World) :
  isNavigation a = true →
  history (editor (step dataURLtoFile a w)) = history (editor w).
Proof.
  destruct a; try done; intros _; simpl.
  - apply handleUndo_history.
  - apply handleRedo_history.
  - apply handleReset_history.
Qed.

Lemma navigations_history dataURLtoFile (navs : list Action) (w : World) :
  Forall (λ a, isNavigation a = true) navs →
  history (editor (run dataURLtoFile navs w)) = history (editor w).
Proof.
  intros Hnavs. revert w. unfold run.
  induction Hnavs as [|a navs Ha _ IH]; intros w; [done|].
  simpl. rewrite IH. by apply navigation_history.
Qed.

(** C2. Appending to a history whose index [i] is in range truncates the
    sequence to its first [i + 1] elements, adds the image at the end and
    moves the index to that last position, so that the appended image is
    the current one and the elements up to [i] are kept. In particular,
    from [A, B, C] at index 2, undo moves the index to 1 and appending [D]
    gives [A, B, D] at index 2; [C], when it is none of the three, is not
    the current image after any sequence of undo, redo and reset steps. *)
Theorem append_truncates_redo_branch :
  (∀ (image : File) (s : EditorState),
     0 ≤ historyIndex s ≤ Z.of_nat (length (history s)) - 1 →
     history (append image s)
       = take (Z.to_nat (historyIndex s + 1)) (history s) ++ [image]
     ∧ historyIndex (append image s) = historyIndex s + 1
     ∧ historyIndex (append image s)
       = Z.of_nat (length (history (append image s))) - 1
     ∧ currentImage (append image s) = Some image
     ∧ (∀ j, 0 ≤ j ≤ historyIndex s →
          at_index (history (append image s)) j = at_index (history s) j))
  ∧ (∀ (A B C D : File) (s : EditorState),
     history s = [A; B; C] → historyIndex s = 2 →
     historyIndex (handleUndo s) = 1
     ∧ history (handleUndo s) = [A; B; C]
     ∧ history (append D (handleUndo s)) = [A; B; D]
     ∧ historyIndex (append D (handleUndo s)) = 2
     ∧ (C ∉ [A; B; D] →
        ∀ dataURLtoFile st (navs : list Action),
          Forall (λ a, isNavigation a = true) navs →
          currentImage
            (editor (run dataURLtoFile navs
                       (mkWorld st (append D (handleUndo s)))))
          ≠ Some C)).
Proof.
  split.
  - intros image s Hi. unfold currentImage.
    destruct (append_history image s) as [-> ->].
    pose proof (addImageToHistory_in_range image _ _ Hi) as Heq.
    split; [by rewrite Heq|]. split; [by rewrite Heq|]. split; [|split].
    + rewrite Heq. simpl. rewrite length_app, length_take. simpl. lia.
    + apply addImageToHistory_current.
    + intros j Hj. apply addImageToHistory_prefix; lia.
  - intros A B C D s Hh Hi.
    assert (Hundo : handleUndo s
                    = setDisplayHotspot None
                        (setEditHotspot None (setHistoryIndex 1 s))).
    { unfold handleUndo, canUndo. by rewrite Hi. }
    assert (Hs2 : history (append D (handleUndo s)) = [A; B; D]).
    { rewrite Hundo. unfold append. simpl. by rewrite Hh. }
    assert (Hi2 : historyIndex (append D (handleUndo s)) = 2).
    { rewrite Hundo. unfold append. simpl. by rewrite Hh. }
    split; [by rewrite Hundo|]. split; [by rewrite handleUndo_history|].
    split; [done|]. split; [done|].
    intros Hnot dataURLtoFile st navs Hnavs Hcur.
    apply at_index_elem_of in Hcur.
    rewrite navigations_history in Hcur by done.
    change (C ∈ history (append D (handleUndo s))) in Hcur.
    by rewrite Hs2 in Hcur.
Qed.

Lemma append_truncates_redo_branch_witness :
  history (append Examples.fileD (handleUndo Examples.historyABC))
    = [Examples.fileA; Examples.fileB; Examples.fileD]
  ∧ historyIndex (append Examples.fileD (handleUndo Examples.historyABC)) = 2
  ∧ currentImage
      (editor (run Examples.decodeDataUrl [Undo; Undo; Redo; Reset; Redo; Redo]
                 (mkWorld (Examples.appOf "u002")
                    (append Examples.fileD (handleUndo Examples.historyABC)))))
    ≠ Some Examples.fileC.
Proof.
  destruct append_truncates_redo_branch as [_ Hexample].
  destruct (Hexample Examples.fileA Examples.fileB Examples.fileC
Examples.fileD Examples.historyABC eq_refl eq_refl)
as (_ & _ & Hh & Hi & Hunreachable).
split; [exact Hh|]. split; [exact Hi|].
apply Hunreachable.
- intros Hin. repeat (apply elem_of_cons in Hin as [[=]|Hin]).
by apply elem_of_nil in Hin.
- by repeat constructor.
Defined.

(** C8. On a non-empty history the reset handler sets the index to 0
    and keeps the whole sequence, the redo branch included, so the
    original upload becomes the current image. From [A, B, C] at index 2
    it gives index 0 on the same three elements, and a redo after it
    makes [B] the current image. *)
Theorem handleReset_keeps_redo_branch :
  (∀ s : EditorState, history s ≠ [] →
     historyIndex (handleReset s) = 0
     ∧ history (handleReset s) = history s
     ∧ currentImage (handleReset s) = originalImage s)
  ∧ (∀ (A B C : File) (s : EditorState),
     history s = [A; B; C] → historyIndex s = 2 →
     historyIndex (handleReset s) = 0
     ∧ history (handleReset s) = [A; B; C]
     ∧ historyIndex (handleRedo (handleReset s)) = 1
     ∧ history (handleRedo (handleReset s)) = [A; B; C]
     ∧ currentImage (handleRedo (handleReset s)) = Some B).
Proof.
  assert (Hreset : ∀ s, history s ≠ [] →
            handleReset s
            = setDisplayHotspot None
                (setEditHotspot None (setError None (setHistoryIndex 0 s)))).
  { intros s Hne. unfold handleReset.
    destruct (history s); [done|]. done. }
  split.
  - intros s Hne. by rewrite Hreset.
  - intros A B C s Hh Hi.
    rewrite Hreset by (by rewrite Hh).
    unfold handleRedo, canRedo, currentImage. simpl. rewrite Hh. simpl.
    by rewrite Hh.
Qed.

Lemma handleReset_keeps_redo_branch_witness :
  historyIndex (handleReset Examples.historyABC) = 0
  ∧ history (handleReset Examples.historyABC)
    = [Examples.fileA; Examples.fileB; Examples.fileC]
  ∧ currentImage (handleRedo (handleReset Examples.historyABC))
    = Some Examples.fileB.
Proof.
  destruct handleReset_keeps_redo_branch as [_ Hexample].
  destruct (Hexample Examples.fileA Examples.fileB Examples.fileC
Examples.historyABC eq_refl eq_refl)
as (Hi & Hh & _ & _ & Hcur).
by repeat split.
Defined.

End History.

(** ** The generation life cycle *)

Section Generation.

Import FileHelpers EditorView.

Variable dataURLtoFile : string → string → Outcome File.

(** A gate that permits changes nothing and has seen an enabled current
    user who is an admin or has credit left. *)
Lemma checkUserCanGenerate_permits (st st' : App.AppState) :
  App.checkUserCanGenerate st = (true, st') →
  st' = st
  ∧ ∃ cu, App.currentUser st = Some cu ∧ App.isEnabled cu = true
      ∧ (App.role cu = App.admin ∨ App.role cu = App.user ∧ 0 < App.credits cu).
Proof.
  unfold App.checkUserCanGenerate.
  destruct (App.currentUser st) as [cu|]; [|done].
  destruct (App.isEnabled cu) eqn:Henabled; simpl; [|done].
  destruct (App.role cu) eqn:Hrole; simpl.
  - intros [= <-]. split; [done|]. exists cu. by auto.
  - destruct (Z.leb_spec (App.credits cu) 0); [done|].
    intros [= <-]. split; [done|]. exists cu. by auto.
Qed.

Lemma checkUserCanGenerate_denies (st st' : App.AppState) :
  App.checkUserCanGenerate st = (false, st') → App.users st' = App.users st.
Proof.
  unfold App.checkUserCanGenerate.
  destruct (App.currentUser st) as [cu|]; [|by intros [= <-]].
  destruct (negb (App.isEnabled cu)); [by intros [= <-]|].
  destruct (_ && _); by intros [= <-].
Qed.

Lemma handleGenericGeneration_end apiCall fileNamePrefix now w :
  GenerationEnd dataURLtoFile apiCall fileNamePrefix now w
    (handleGenericGeneration dataURLtoFile apiCall fileNamePrefix now w).1
    (handleGenericGeneration dataURLtoFile apiCall fileNamePrefix now w).2.
Proof.
  unfold handleGenericGeneration, handleGenericGeneration_call.
  destruct (App.checkUserCanGenerate (app w)) as [[|] st'] eqn:Hgate.
  - destruct (checkUserCanGenerate_permits _ _ Hgate) as (-> & cu & Hcu & _).
    rewrite Hcu. unfold handleGenericGeneration_settle. cbn [awaitingPrefix
      awaitingHistory awaitingHistoryIndex awaitingUser].
    destruct apiCall as [url|err].
    + destruct (dataURLtoFile url (stampedName fileNamePrefix now))
        as [image|err] eqn:Hdecode.
      * pose proof (generation_committed dataURLtoFile (Resolved url)
                      fileNamePrefix now w cu url image) as Hend.
        rewrite Hgate in Hend. specialize (Hend eq_refl Hcu eq_refl Hdecode).
        destruct (App.role cu); exact Hend.
      * pose proof (generation_failed dataURLtoFile (Resolved url)
                      fileNamePrefix now w err) as Hend.
        rewrite Hgate in Hend. apply Hend; [done|]. right. by exists url.
    + pose proof (generation_failed dataURLtoFile (Rejected err)
                    fileNamePrefix now w err) as Hend.
      rewrite Hgate in Hend. apply Hend; [done|]. by left.
  - by constructor.
Qed.

Lemma find_map_same_id (f : App.User → App.User) (cid : string) (l : list App.User) :
  (∀ u, App.id (f u) = App.id u) →
  find (λ u, String.eqb (App.id u) cid) (map f l)
  = f <$> find (λ u, String.eqb (App.id u) cid) l.
Proof.
  intros Hid. induction l as [|u l IH]; [done|].
  simpl. rewrite Hid. by destruct (String.eqb (App.id u) cid).
Qed.

Lemma currentUser_id (st : App.AppState) (cu : App.User) :
  App.currentUser st = Some cu → App.currentUserId st = Some (App.id cu).
Proof.
  unfold App.currentUser.
  destruct (App.currentUserId st) as [cid|]; [|done]. simpl.
  intros Hfind. apply find_some in Hfind as [_ Heq].
  by apply String.eqb_eq in Heq as ->.
Qed.

(** The credit update as the session sees it. *)
Lemma currentUser_updateUserCredits (st : App.AppState) (cu : App.User) (change : Z) :
  App.currentUser st = Some cu →
  App.currentUser (App.updateUserCredits (App.id cu) change st)
  = Some (App.withCredits cu (Z.max 0 (App.credits cu + change))).
Proof.
  intros Hcu. pose proof (currentUser_id _ _ Hcu) as Hid.
  unfold App.currentUser in *. simpl. rewrite Hid in *. simpl in *.
  rewrite find_map_same_id, Hcu.
  - simpl. by rewrite String.eqb_refl.
  - intros u. by destruct (String.eqb (App.id u) (App.id cu)).
Qed.





End Generation.

Section GenerationExamples.

Import FileHelpers EditorView.




End GenerationExamples.

(** ** The invariant of the history *)

Section Invariant.

Import FileHelpers EditorView.

Variable dataURLtoFile : string → string → Outcome File.

Lemma HistoryInvariant_same (original : option File) (s s' : EditorState) :
  history s' = history s → historyIndex s' = historyIndex s →
  HistoryInvariant original s → HistoryInvariant original s'.
Proof. unfold HistoryInvariant. by intros -> ->. Qed.

Lemma currentImage_nonempty (s : EditorState) :
  is_Some (currentImage s) → history s ≠ [].
Proof.
  intros [x Hx] Hnil. apply at_index_elem_of in Hx.
  rewrite Hnil in Hx. by apply elem_of_nil in Hx.
Qed.

(** Appending to a non-empty history keeps the invariant: the truncation
    keeps at least the element at index 0. *)
Lemma HistoryInvariant_appended (original : option File) (image : File)
    (s s' : EditorState) :
  history s' = (addImageToHistory image (history s) (historyIndex s)).1 →
  historyIndex s' = (addImageToHistory image (history s) (historyIndex s)).2 →
  history s ≠ [] →
  HistoryInvariant original s → HistoryInvariant original s'.
Proof.
  unfold HistoryInvariant. intros Hh Hi Hne.
  destruct (history s) as [|first rest] eqn:Hs; [done|].
  intros [Hrange ->]. rewrite Hi, Hh. simpl.
  replace (Z.to_nat (historyIndex s + 1))
    with (S (Z.to_nat (historyIndex s))) by lia.
  simpl. split; [|done]. rewrite length_app. simpl. lia.
Qed.

(** The index stays in range under [append] even on the empty history. *)
Lemma append_index_in_range (image : File) (s : EditorState) :
  0 ≤ historyIndex (append image s)
    ≤ Z.of_nat (length (history (append image s))) - 1.
Proof.
  destruct (append_history image s) as [-> ->]. simpl.
  rewrite length_app. simpl. lia.
Qed.

(** What a generation leaves in the history: nothing, or one append. *)
Lemma handleGenericGeneration_history apiCall fileNamePrefix now w :
  let w' := (handleGenericGeneration dataURLtoFile apiCall fileNamePrefix now w).2 in
  history (editor w') = history (editor w)
  ∧ historyIndex (editor w') = historyIndex (editor w)
  ∨ ∃ image,
      history (editor w')
      = (addImageToHistory image (history (editor w)) (historyIndex (editor w))).1
      ∧ historyIndex (editor w')
        = (addImageToHistory image (history (editor w)) (historyIndex (editor w))).2.
Proof.
  simpl.
  destruct (handleGenericGeneration_end dataURLtoFile apiCall fileNamePrefix now w)
    as [st' _ | err _ _ | cu url image _ _ _ _]; [by left..|].
  right. by exists image.
Qed.

Lemma handleGenericGeneration_invariant original apiCall fileNamePrefix now w :
  history (editor w) ≠ [] →
  HistoryInvariant original (editor w) →
  HistoryInvariant original
    (editor (handleGenericGeneration dataURLtoFile apiCall fileNamePrefix now w).2).
Proof.
  intros Hne Hinv.
  destruct (handleGenericGeneration_history apiCall fileNamePrefix now w)
    as [[Hh Hi]|(image & Hh & Hi)].
  - by eapply HistoryInvariant_same.
  - by eapply HistoryInvariant_appended.
Qed.

Lemma step_invariant (a : Action) (original : option File) (w : World) :
  HistoryInvariant original (editor w) →
  HistoryInvariant (trackOriginal a original) (editor (step dataURLtoFile a w)).
Proof.
  intros Hinv. destruct a as [file|reply now|reply now|reply now
                             |image2 panelPrompt reply now|reply now
                             |canvasContext url now| | | |]; simpl.
  - (* upload *) unfold HistoryInvariant. simpl. split; [lia|done].
  - (* edit *) unfold handleGenerate.
    destruct (currentImage (editor w)) eqn:Hcur; [|done].
    destruct (negb _); [done|].
    destruct (editHotspot (editor w)); [|done].
    pose proof (handleGenericGeneration_invariant original
                  (GeminiService.generateEditedImage reply) "edited" now w
                  (currentImage_nonempty _ (mk_is_Some _ _ Hcur)) Hinv) as H.
    destruct (handleGenericGeneration _ _ _ _ _) as [[[|]|] w1]; done.
  - (* filter *) unfold handleApplyFilter.
    destruct (currentImage (editor w)) eqn:Hcur; [|done].
    apply handleGenericGeneration_invariant; [|done].
    by eapply currentImage_nonempty.
  - (* adjustment *) unfold handleApplyAdjustment.
    destruct (currentImage (editor w)) eqn:Hcur; [|done].
    apply handleGenericGeneration_invariant; [|done].
    by eapply currentImage_nonempty.
  - (* combine *) unfold combinePanelHandleApply.
    destruct (currentImage (editor w)) eqn:Hcur; [|done].
    destruct image2; [|done]. destruct (truthy _); [|done].
    apply handleGenericGeneration_invariant; [|done].
    by eapply currentImage_nonempty.
  - (* expand *) unfold handleExpandImage.
    destruct (currentImage (editor w)) eqn:Hcur; [|done].
    apply handleGenericGeneration_invariant; [|done].
    by eapply currentImage_nonempty.
  - (* crop *) unfold handleApplyCrop.
    destruct (completedCrop (editor w)); [|done].
    destruct (imgRefCurrent (editor w)) eqn:Href; [|done].
    destruct (negb canvasContext); [done|].
    destruct (dataURLtoFile url _) as [image|]; [|done].
    eapply (HistoryInvariant_appended original image (editor w)); try done.
    apply currentImage_nonempty. unfold imgRefCurrent in Href.
    destruct (error (editor w)); [done|].
    by destruct (currentImage (editor w)).
  - (* undo *) unfold handleUndo, canUndo.
    destruct (Z.ltb_spec 0 (historyIndex (editor w))); [|done].
    revert Hinv. unfold HistoryInvariant. simpl.
    destruct (history (editor w)); [lia|]. intros [? ?]. split; [lia|done].
  - (* redo *) unfold handleRedo, canRedo.
    destruct (Z.ltb_spec (historyIndex (editor w))
                (Z.of_nat (length (history (editor w))) - 1)); [|done].
    revert Hinv. unfold HistoryInvariant. simpl.
    destruct (history (editor w)) eqn:Hh; [simpl in *; lia|].
    intros [? ?]. split; [lia|done].
  - (* reset *) unfold handleReset.
    revert Hinv. unfold HistoryInvariant.
    destruct (history (editor w)) as [|first rest] eqn:Hh;
      simpl; rewrite Hh; [done|].
    intros [? ?]. split; [simpl; lia|done].
  - (* new session *) done.
Qed.


Lemma HistoryInvariant_index (original : option File) (s : EditorState) :
  HistoryInvariant original s → IndexInRange s.
Proof.
  unfold HistoryInvariant, IndexInRange.
  destruct (history s); by intros [? _].
Qed.


Import Interleaving.

Lemma handleGenericGeneration_call_history (fileNamePrefix : string) (w : World) :
  history (editor (handleGenericGeneration_call fileNamePrefix w).1)
  = history (editor w)
  ∧ historyIndex (editor (handleGenericGeneration_call fileNamePrefix w).1)
    = historyIndex (editor w)
  ∧ ∀ k, (handleGenericGeneration_call fileNamePrefix w).2 = Some k →
      awaitingHistory k = history (editor w)
      ∧ awaitingHistoryIndex k = historyIndex (editor w).
Proof.
  unfold handleGenericGeneration_call.
  destruct (App.checkUserCanGenerate (app w)) as [[|] st'];
    destruct (App.currentUser (app w)); simpl;
    (split; [done|]; split; [done|]; intros k Hk; by simplify_eq/=).
Qed.

(** A call leaves the sequence and the index alone; the continuation it
    leaves holds them, and the sequence is then not empty. *)
Lemma call_history (op : Operation) (image2 : option File)
    (panelPrompt : string) (w : World) :
  history (editor (call op image2 panelPrompt w).1) = history (editor w)
  ∧ historyIndex (editor (call op image2 panelPrompt w).1)
    = historyIndex (editor w)
  ∧ ∀ k, (call op image2 panelPrompt w).2 = Some k →
      awaitingHistory k = history (editor w)
      ∧ awaitingHistoryIndex k = historyIndex (editor w)
      ∧ history (editor w) ≠ [].
Proof.
  assert (Hcall : ∀ fileNamePrefix, is_Some (currentImage (editor w)) →
    history (editor (handleGenericGeneration_call fileNamePrefix w).1)
    = history (editor w)
    ∧ historyIndex (editor (handleGenericGeneration_call fileNamePrefix w).1)
      = historyIndex (editor w)
    ∧ ∀ k, (handleGenericGeneration_call fileNamePrefix w).2 = Some k →
        awaitingHistory k = history (editor w)
        ∧ awaitingHistoryIndex k = historyIndex (editor w)
        ∧ history (editor w) ≠ []).
  { intros fileNamePrefix Hcur%currentImage_nonempty.
    destruct (handleGenericGeneration_call_history fileNamePrefix w)
      as (Hh & Hi & Hk).
    split; [done|]. split; [done|].
    intros k [? ?]%Hk. done. }
  unfold call.
  destruct op; destruct (currentImage (editor w)) eqn:Hcur; simpl;
    repeat match goal with
           | |- context [if ?b then _ else _] => destruct b; simpl
           | |- context [match editHotspot ?s with _ => _ end] =>
               destruct (editHotspot s); simpl
           | |- context [match image2 with _ => _ end] => destruct image2; simpl
           end;
    first [apply Hcall; by eauto
          |split; [done|]; split; [done|]; intros k Hk; by simplify_eq/=].
Qed.

(** A reply leaves the sequence alone or appends to the sequence its
    continuation holds. *)
Lemma settle_history (p : InFlight)
    (reply : Outcome GeminiService.GenerateContentResponse) (now : Z) (w : World) :
  history (editor (settle dataURLtoFile p reply now w)) = history (editor w)
  ∧ historyIndex (editor (settle dataURLtoFile p reply now w))
    = historyIndex (editor w)
  ∨ ∃ image,
      history (editor (settle dataURLtoFile p reply now w))
      = (addImageToHistory image (awaitingHistory (continuation p))
           (awaitingHistoryIndex (continuation p))).1
      ∧ historyIndex (editor (settle dataURLtoFile p reply now w))
        = (addImageToHistory image (awaitingHistory (continuation p))
             (awaitingHistoryIndex (continuation p))).2.
Proof.
  unfold settle, handleGenericGeneration_settle.
  destruct (apiCallOf (operation p) reply) as [url|err].
  - destruct (dataURLtoFile url _) as [image|err].
    + right. exists image.
      destruct (negb _), (operation p); done.
    + left. by destruct (operation p).
  - left. by destruct (operation p).
Qed.


Lemma HistoryInvariant_awaiting (original : option File) (k : Awaiting) (s : EditorState) :
  awaitingHistory k = history s → awaitingHistoryIndex k = historyIndex s →
  HistoryInvariant original s → HistoryInvariant original (awaitingState k).
Proof. intros Hh Hi. by apply HistoryInvariant_same. Qed.

(** What a reply makes of the invariant its continuation is under. *)
Lemma settle_invariant (original original' : option File) (p : InFlight)
    (reply : Outcome GeminiService.GenerateContentResponse) (now : Z) (w : World) :
  HistoryInvariant original (editor w) →
  awaitingHistory (continuation p) ≠ [] →
  HistoryInvariant original' (awaitingState (continuation p)) →
  HistoryInvariant original (editor (settle dataURLtoFile p reply now w))
  ∨ HistoryInvariant original' (editor (settle dataURLtoFile p reply now w)).
Proof.
  intros Hw Hne Hk.
  destruct (settle_history p reply now w) as [[Hh Hi]|(image & Hh & Hi)].
  - left. by eapply HistoryInvariant_same.
  - right. by eapply (HistoryInvariant_appended original' image
                        (awaitingState (continuation p))).
Qed.



Lemma OverUpload_more (uploads uploads' : list File) (s : EditorState) :
  uploads ⊆ uploads' → OverUpload uploads s → OverUpload uploads' s.
Proof.
  intros Hsub (original & Hinv & Hin). exists original. split; [done|].
  intros file Hfile. by apply Hsub, Hin.
Qed.

Lemma stepSession_over_uploads (e : Event) (uploads : list File) (σ : Session) :
  SessionOverUploads uploads σ →
  SessionOverUploads (uploads ++ uploadOf e) (stepSession dataURLtoFile e σ).
Proof.
  intros [Hw Hflight].
  assert (Hsub : uploads ⊆ uploads ++ uploadOf e)
    by (intros x Hx; apply elem_of_app; by left).
  assert (Hflight' : Forall (λ p, awaitingHistory (continuation p) ≠ []
                              ∧ OverUpload (uploads ++ uploadOf e)
                                  (awaitingState (continuation p)))
                       (inFlight σ)).
  { eapply Forall_impl; [exact Hflight|].
    intros p [Hne Hk]. split; [done|]. by eapply OverUpload_more. }
  apply (OverUpload_more _ _ _ Hsub) in Hw.
  clear Hflight Hsub.
  destruct e as [op image2 panelPrompt|n reply now|tab|displayed clicked|text| |a];
    simpl;
    try (destruct Hw as (original & Hinv & Hin); split; simpl; [|done];
         exists original; split; [|done];
         try (unfold handleImageClick; destruct (onTab _ _)); done).
  - destruct (call_history op image2 panelPrompt (world σ)) as (Hh & Hi & Hk).
    destruct (call op image2 panelPrompt (world σ)) as [w1 k]. simpl in *.
    destruct Hw as (original & Hinv & Hin).
    split; simpl.
    + exists original. split; [by eapply HistoryInvariant_same|done].
    + apply Forall_app. split; [done|].
      destruct k as [k|]; [|done].
      destruct (Hk k eq_refl) as (Hkh & Hki & Hne).
      apply Forall_singleton. simpl. split; [by rewrite Hkh|].
      exists original. split; [by eapply HistoryInvariant_awaiting|done].
  - destruct (inFlight σ !! n) as [p|] eqn:Hp; [|done].
    destruct (Forall_lookup_1 _ _ _ _ Hflight' Hp)
      as [Hne (original' & Hk & Hin')].
    destruct Hw as (original & Hinv & Hin).
    split; simpl; [|by apply Forall_delete].
    destruct (settle_invariant original original' p reply now (world σ));
      [done..| |]; eexists; split; done.
  - split; simpl; [|done].
    destruct Hw as (original & Hinv & Hin).
    exists (trackOriginal a original). split; [by apply step_invariant|].
    intros file. destruct a; simpl; try done; try apply Hin.
    intros [= ->]. apply elem_of_app. right. by apply list_elem_of_singleton.
Qed.

Lemma runSession_over_uploads (events : list Event) (uploads : list File)
    (σ : Session) :
  SessionOverUploads uploads σ →
  SessionOverUploads (uploads ++ uploadedFiles events)
    (runSession dataURLtoFile events σ).
Proof.
  revert uploads σ. unfold runSession, uploadedFiles.
  induction events as [|e events IH]; intros uploads σ Hinv; simpl.
  - by rewrite app_nil_r.
  - rewrite app_assoc. apply IH. by apply stepSession_over_uploads.
Qed.

Lemma mounted_invariant (st : App.AppState) :
  SessionInvariant None (mounted st) ∧ SessionOverUploads [] (mounted st).
Proof.
  split; (split; [|by apply Forall_nil]); [done|].
  exists None. by split.
Qed.

(** A handler that is not interrupted does what its call followed at once
    by its reply does. *)
Lemma handler_is_call_then_reply (op : Operation) (image2 : option File)
    (panelPrompt : string)
    (reply : Outcome GeminiService.GenerateContentResponse) (now : Z) (w : World) :
  step dataURLtoFile (actionOf op image2 panelPrompt reply now) w
  = world (runSession dataURLtoFile
             [Call op image2 panelPrompt; Reply 0 reply now] (mkSession w [])).
Proof.
  unfold runSession. destruct op; simpl;
    unfold handleGenerate, handleApplyFilter, handleApplyAdjustment,
      combinePanelHandleApply, handleCombineImages, handleExpandImage,
      handleGenericGeneration, settle;
    repeat (case_match; simplify_eq/=); done.
Qed.

(** In every run of the component the index is in range, handlers
    interrupted or not. *)
Lemma runSession_index_in_range (events : list Event) (st : App.AppState) :
  IndexInRange (editor (world (runSession dataURLtoFile events (mounted st)))).
Proof.
  destruct (runSession_over_uploads events [] (mounted st)
              (proj2 (mounted_invariant st))) as [(original & Hinv & _) _].
  by eapply HistoryInvariant_index.
Qed.


End Invariant.

Section InvariantExamples.

Import FileHelpers EditorView Interleaving.




End InvariantExamples.

(** ** Navigation and the hotspots *)

Section NavigationHotspots.

Import FileHelpers EditorView Interleaving.

Variable dataURLtoFile : string → string → Outcome File.

(** Without a stored hotspot the Edit handler starts no generation: it
    sets one of its three messages and leaves the rest alone. *)
Lemma handleGenerate_without_hotspot
    (reply : Outcome GeminiService.GenerateContentResponse) (now : Z) (w : World) :
  editHotspot (editor w) = None →
  is_Some (currentImage (editor w)) →
  handleGenerate dataURLtoFile reply now w
  = onEditor
      (setError
         (Some (if truthy (Some (trim (prompt (editor w))))
                then "Please click on the image to select an area to edit."
                else "Please enter a description for your edit."))) w
  ∧ (call opEdit None "" w).2 = None.
Proof.
  intros Hnone [image Hcur]. unfold handleGenerate, call.
  rewrite Hnone, Hcur.
  by destruct (truthy (Some (trim (prompt (editor w))))).
Qed.

(** C9. Every undo, redo and reset-to-original call clears the stored
    edit hotspot and the display hotspot, not only a successful Edit
    commit. The calls are those the component can receive: the Undo button
    is disabled unless [canUndo], the Redo button unless [canRedo], the
    Reset button unless [canUndo], and the state is one the component
    reaches from its mount, handlers interrupted or not. After such a
    navigation the next Edit requires a new hotspot: the Generate button
    is disabled, and the Edit handler, were it called, starts no
    generation and only asks for the hotspot (or for the prompt first,
    when that is blank), leaving history, index and [App] state alone. *)
Theorem enabled_navigation_clears_hotspots
    (events : list Event) (st : App.AppState) (w : World) (a : Action) :
  w = world (runSession dataURLtoFile events (mounted st)) →
  a = Undo ∧ undoDisabled (editor w) = false
  ∨ a = Redo ∧ redoDisabled (editor w) = false
  ∨ a = Reset ∧ resetDisabled (editor w) = false →
  editHotspot (editor (step dataURLtoFile a w)) = None
  ∧ displayHotspot (editor (step dataURLtoFile a w)) = None
  ∧ history (editor (step dataURLtoFile a w)) = history (editor w)
  ∧ historyIndex (editor (step dataURLtoFile a w))
    = match a with
      | Undo => historyIndex (editor w) - 1
      | Redo => historyIndex (editor w) + 1
      | _ => 0
      end
  ∧ app (step dataURLtoFile a w) = app w
  ∧ callOffered opEdit None "" (editor (step dataURLtoFile a w)) = false
  ∧ (call opEdit None "" (step dataURLtoFile a w)).2 = None
  ∧ ∀ reply now,
      error (editor (handleGenerate dataURLtoFile reply now
                       (step dataURLtoFile a w)))
      = Some (if truthy (Some (trim (prompt (editor w))))
              then "Please click on the image to select an area to edit."
              else "Please enter a description for your edit.")
      ∧ editHotspot (editor (handleGenerate dataURLtoFile reply now
                               (step dataURLtoFile a w))) = None
      ∧ history (editor (handleGenerate dataURLtoFile reply now
                           (step dataURLtoFile a w)))
        = history (editor w)
      ∧ historyIndex (editor (handleGenerate dataURLtoFile reply now
                                (step dataURLtoFile a w)))
        = historyIndex (editor (step dataURLtoFile a w))
      ∧ isLoading (editor (handleGenerate dataURLtoFile reply now
                             (step dataURLtoFile a w)))
        = isLoading (editor w)
      ∧ app (handleGenerate dataURLtoFile reply now (step dataURLtoFile a w))
        = app w.
Proof.
  intros Hw Henabled.
  pose proof (runSession_index_in_range dataURLtoFile events st) as Hrange.
  rewrite <- Hw in Hrange. clear Hw. unfold IndexInRange in Hrange.
  assert (Hstep : editor (step dataURLtoFile a w)
                  = setDisplayHotspot None
                      (setEditHotspot None
                         (match a with
                          | Undo => setHistoryIndex (historyIndex (editor w) - 1)
                                      (editor w)
                          | Redo => setHistoryIndex (historyIndex (editor w) + 1)
                                      (editor w)
                          | _ => setError None (setHistoryIndex 0 (editor w))
                          end))
                  ∧ app (step dataURLtoFile a w) = app w
                  ∧ is_Some (currentImage (editor (step dataURLtoFile a w)))).
  { destruct Henabled as [[-> Hon]|[[-> Hon]|[-> Hon]]]; simpl.
    - unfold undoDisabled in Hon. apply negb_false_iff in Hon.
      unfold handleUndo. rewrite Hon. split; [done|]. split; [done|].
      unfold canUndo in Hon. apply Z.ltb_lt in Hon.
      apply at_index_in_range. simpl.
      destruct (history (editor w)); simpl in *; lia.
    - unfold redoDisabled in Hon. apply negb_false_iff in Hon.
      unfold handleRedo. rewrite Hon. split; [done|]. split; [done|].
      unfold canRedo in Hon. apply Z.ltb_lt in Hon.
      apply at_index_in_range. simpl.
      destruct (history (editor w)); simpl in *; lia.
    - unfold resetDisabled in Hon. apply negb_false_iff in Hon.
      unfold canUndo in Hon. apply Z.ltb_lt in Hon.
      unfold handleReset.
      destruct (history (editor w)) as [|first rest] eqn:Hh; [lia|].
      simpl. split; [done|]. split; [done|].
      apply at_index_in_range. simpl. rewrite Hh. simpl. lia. }
  destruct Hstep as (Hstep & Happ & Hcurrent).
  assert (Hnone : editHotspot (editor (step dataURLtoFile a w)) = None)
    by (by rewrite Hstep).
  assert (Hprompt : prompt (editor (step dataURLtoFile a w)) = prompt (editor w))
    by (rewrite Hstep; by destruct a).
  destruct (handleGenerate_without_hotspot Examples.goodReply 0
              (step dataURLtoFile a w) Hnone Hcurrent) as [_ Hcall].
  split; [done|]. split; [by rewrite Hstep|].
  split; [rewrite Hstep; by destruct a|].
  split; [rewrite Hstep; by destruct Henabled as [[-> _]|[[-> _]|[-> _]]]|].
  split; [done|].
  split.
  { unfold callOffered. rewrite Hnone. simpl.
    by rewrite !andb_false_r. }
  split; [done|].
  intros reply now.
  destruct (handleGenerate_without_hotspot reply now
              (step dataURLtoFile a w) Hnone Hcurrent) as [-> _].
  simpl. rewrite Hprompt, Hnone, Happ.
  repeat split; try done; rewrite Hstep; by destruct a.
Qed.

End NavigationHotspots.

Section NavigationHotspotsExamples.

Import FileHelpers EditorView Interleaving.

(** Bob has two images in the history and a hotspot selected on the
    second; Undo clears the hotspot, and the Edit handler then asks for
    one. *)
Lemma enabled_navigation_clears_hotspots_witness :
  editHotspot (editor Examples.hotspotSelected) = Some Examples.someHotspot
  ∧ editHotspot (editor (step Examples.decodeDataUrl Undo Examples.hotspotSelected))
    = None
  ∧ displayHotspot
      (editor (step Examples.decodeDataUrl Undo Examples.hotspotSelected))
    = None
  ∧ error (editor (handleGenerate Examples.decodeDataUrl Examples.goodReply
                     1700000000001
                     (step Examples.decodeDataUrl Undo Examples.hotspotSelected)))
    = Some "Please click on the image to select an area to edit.".
Proof.
  destruct (enabled_navigation_clears_hotspots Examples.decodeDataUrl
              Examples.hotspotSelectedEvents (Examples.appOf "u002")
              Examples.hotspotSelected Undo eq_refl
              (or_introl (conj eq_refl eq_refl)))
    as (Hedit & Hdisplay & _ & _ & _ & _ & _ & Hnext).
  split; [by vm_compute|]. split; [exact Hedit|]. split; [exact Hdisplay|].
  exact (proj1 (Hnext Examples.goodReply 1700000000001)).
Defined.

End NavigationHotspotsExamples.

(** ** Further properties of the handlers *)

Section Further.

Import FileHelpers EditorView.

Variable dataURLtoFile : string → string → Outcome File.

(** A generation never touches the hotspots itself. *)
Lemma handleGenericGeneration_hotspots apiCall fileNamePrefix now w :
  editHotspot
    (editor (handleGenericGeneration dataURLtoFile apiCall fileNamePrefix now w).2)
  = editHotspot (editor w)
  ∧ displayHotspot
      (editor (handleGenericGeneration dataURLtoFile apiCall fileNamePrefix now w).2)
    = displayHotspot (editor w).
Proof.
  by destruct (handleGenericGeneration_end dataURLtoFile apiCall fileNamePrefix now w).
Qed.

Lemma handleGenericGeneration_settle_hotspots (k : Awaiting)
    (apiCall : Outcome string) (now : Z) (w : World) :
  editHotspot
    (editor (handleGenericGeneration_settle dataURLtoFile k apiCall now w).2)
  = editHotspot (editor w)
  ∧ displayHotspot
      (editor (handleGenericGeneration_settle dataURLtoFile k apiCall now w).2)
    = displayHotspot (editor w).
Proof.
  unfold handleGenericGeneration_settle.
  destruct apiCall as [url|err]; [|done].
  destruct (dataURLtoFile url _) as [image|err]; [|done].
  by destruct (negb _).
Qed.

(** The Edit handler, once its three input checks pass, clears the stored
    hotspot and the display hotspot exactly when the generation commits; a
    failed or denied generation keeps both. So does the rest of a handler
    whose reply arrives after other handlers ran: it clears the two
    hotspots of the state it finds when it is the Edit handler and the
    generation commits, and keeps them otherwise. *)
Theorem handleGenerate_hotspot_one_shot
    (reply : Outcome GeminiService.GenerateContentResponse) (now : Z)
    (w : World) (image : File) (hotspot : Hotspot) :
  currentImage (editor w) = Some image →
  trim (prompt (editor w)) ≠ "" →
  editHotspot (editor w) = Some hotspot →
  ((handleGenericGeneration dataURLtoFile
      (GeminiService.generateEditedImage reply) "edited" now w).1 = Some true →
   editHotspot (editor (handleGenerate dataURLtoFile reply now w)) = None
   ∧ displayHotspot (editor (handleGenerate dataURLtoFile reply now w)) = None)
  ∧ ((handleGenericGeneration dataURLtoFile
        (GeminiService.generateEditedImage reply) "edited" now w).1 ≠ Some true →
     editHotspot (editor (handleGenerate dataURLtoFile reply now w)) = Some hotspot
     ∧ displayHotspot (editor (handleGenerate dataURLtoFile reply now w))
       = displayHotspot (editor w))
  ∧ (∀ (p : Interleaving.InFlight) (w0 : World),
       (Interleaving.operation p = Interleaving.opEdit →
        (handleGenericGeneration_settle dataURLtoFile (Interleaving.continuation p)
           (GeminiService.generateEditedImage reply) now w0).1 = Some true →
        editHotspot (editor (Interleaving.settle dataURLtoFile p reply now w0))
        = None
        ∧ displayHotspot (editor (Interleaving.settle dataURLtoFile p reply now w0))
          = None)
       ∧ (Interleaving.operation p ≠ Interleaving.opEdit
          ∨ (handleGenericGeneration_settle dataURLtoFile
               (Interleaving.continuation p)
               (Interleaving.apiCallOf (Interleaving.operation p) reply) now w0).1
            ≠ Some true →
          editHotspot (editor (Interleaving.settle dataURLtoFile p reply now w0))
          = editHotspot (editor w0)
          ∧ displayHotspot
              (editor (Interleaving.settle dataURLtoFile p reply now w0))
            = displayHotspot (editor w0))).
Proof.
  intros Hcur Hprompt Hhot.
  apply and_assoc. split; [|
    intros p w0; unfold Interleaving.settle;
    pose proof (handleGenericGeneration_settle_hotspots
                  (Interleaving.continuation p)
                  (Interleaving.apiCallOf (Interleaving.operation p) reply)
                  now w0) as [Hedit Hdisplay];
    split;
    [intros Hop; rewrite Hop in *; simpl in *;
     destruct (handleGenericGeneration_settle _ _ _ _ _) as [result w1];
     simpl; by intros ->
    |intros Hother;
     destruct (handleGenericGeneration_settle _ _ _ _ _) as [[[|]|] w1];
     destruct (Interleaving.operation p); simpl in *;
     try done; by destruct Hother]].
  unfold handleGenerate.
  rewrite Hcur, Hhot. apply truthy_Some in Hprompt. rewrite Hprompt. simpl.
  destruct (handleGenericGeneration_hotspots
              (GeminiService.generateEditedImage reply) "edited" now w)
    as [Hedit Hdisplay].
  destruct (handleGenericGeneration _ _ _ _ _) as [[[|]|] w1]; simpl in *;
    split; try done; intros _; by rewrite ?Hedit, ?Hdisplay.
Qed.

(** The credit update changes the balance of the users with the given id,
    never below zero, and nothing else in the table. *)
Theorem updateUserCredits_clamped (userId : string) (change : Z)
    (st : App.AppState) (i : nat) (u : App.User) :
  App.users st !! i = Some u →
  ∃ u', App.users (App.updateUserCredits userId change st) !! i = Some u'
    ∧ length (App.users (App.updateUserCredits userId change st))
      = length (App.users st)
    ∧ App.error (App.updateUserCredits userId change st) = App.error st
    ∧ App.currentUserId (App.updateUserCredits userId change st)
      = App.currentUserId st
    ∧ App.showPaywall (App.updateUserCredits userId change st)
      = App.showPaywall st
    ∧ App.id u' = App.id u ∧ App.email u' = App.email u
    ∧ App.password u' = App.password u ∧ App.role u' = App.role u
    ∧ App.isEnabled u' = App.isEnabled u
    ∧ (App.id u = userId →
         App.credits u' = Z.max 0 (App.credits u + change) ∧ 0 ≤ App.credits u')
    ∧ (App.id u ≠ userId → u' = u).
Proof.
  intros Hu. simpl. rewrite list_lookup_fmap, Hu, length_map. simpl.
  destruct (String.eqb_spec (App.id u) userId) as [Heq|Hne];
    eexists; (split; [done|]); simpl; repeat split; try done; lia.
Qed.

End Further.

Section FurtherExamples.

Import FileHelpers EditorView.

Lemma handleGenerate_hotspot_one_shot_witness :
  editHotspot
    (editor (handleGenerate Examples.decodeDataUrl Examples.goodReply 1700000000000
               (mkWorld (Examples.appOf "u002") Examples.uploadedWithHotspot)))
  = None.
Proof.
  by apply (handleGenerate_hotspot_one_shot Examples.decodeDataUrl
              Examples.goodReply 1700000000000
              (mkWorld (Examples.appOf "u002") Examples.uploadedWithHotspot)
              Examples.fileA Examples.someHotspot).
Defined.

Lemma updateUserCredits_clamped_witness :
  ∃ u', App.users (App.updateUserCredits "u003" (-1) (Examples.appOf "u003")) !! 2%nat
        = Some u'
    ∧ App.credits u' = 0.
Proof.
  destruct (updateUserCredits_clamped "u003" (-1) (Examples.appOf "u003") 2
              (App.mkUser "u003" "charlie@example.com" (Some "password123") 0 true
                 App.user) eq_refl)
    as (u' & Hu' & _ & _ & _ & _ & _ & _ & _ & _ & _ & Hcredits & _).
  exists u'. split; [exact Hu'|]. by destruct (Hcredits eq_refl) as [-> _].
Defined.

End FurtherExamples.

(** ** Reading a file back as a part *)

Section FileToPartProperties.

Import FileToPart.

Lemma includes_app (c : ascii) (a b : string) :
  includes c (a +:+ b) = includes c a || includes c b.
Proof.
  induction a as [|c' a IH]; simpl; [done|].
  rewrite IH. by destruct (Ascii.eqb c' c).
Qed.

Lemma split_without_separator (sep : ascii) (s : string) :
  includes sep s = false → split sep s = [s].
Proof.
  induction s as [|c s IH]; simpl; [done|].
  destruct (Ascii.eqb c sep); simpl; [done|].
  intros Hs. by rewrite IH.
Qed.

Lemma split_at_first_separator (sep : ascii) (a b : string) :
  includes sep a = false →
  split sep (a +:+ String sep b) = a :: split sep b.
Proof.
  induction a as [|c a IH]; simpl.
  - by rewrite Ascii.eqb_refl.
  - destruct (Ascii.eqb c sep); simpl; [done|].
    intros Ha. by rewrite IH.
Qed.

Lemma split_length (sep : ascii) (s : string) : (1 ≤ length (split sep s))%nat.
Proof.
  induction s as [|c s IH]; simpl; [lia|].
  destruct (Ascii.eqb c sep); simpl; [lia|].
  destruct (split sep s); simpl in *; lia.
Qed.

Lemma upToSemicolon_group (group rest : string) :
  includes ";" group = false →
  includes "010" group = false → includes "013" group = false →
  upToSemicolon (group +:+ String ";" rest) = Some group.
Proof.
  induction group as [|c group IH]; simpl; [done|].
  destruct (Ascii.eqb_spec c ";") as [->|Hsemi]; simpl; [done|].
  destruct (Ascii.eqb_spec c "010") as [->|Hlf]; simpl; [done|].
  destruct (Ascii.eqb_spec c "013") as [->|Hcr]; simpl; [done|].
  intros H1 H2 H3. rewrite IH by done.
  assert (isLineTerminator c = false) as ->; [|done].
  unfold isLineTerminator.
  destruct (N_of_ascii c) as [|p] eqn:Hc; [done|].
  assert (c = ascii_of_N (N.pos p)) as Hascii
    by (by rewrite <- Hc, ascii_N_embedding).
  do 4 (destruct p as [p|p|]; try done);
    exfalso; (apply Hlf || apply Hcr); by rewrite Hascii.
Qed.

Lemma matchMime_no_colon (s : string) :
  includes ":" s = false → matchMime s = None.
Proof.
  induction s as [|c s IH]; simpl; [done|].
  destruct (Ascii.eqb c ":"); simpl; [done|]. exact IH.
Qed.

Lemma matchMime_first_colon (scheme group rest : string) :
  includes ":" scheme = false →
  includes ";" group = false →
  includes "010" group = false → includes "013" group = false →
  matchMime (scheme +:+ String ":" (group +:+ String ";" rest)) = Some group.
Proof.
  intros Hscheme Hsemi Hlf Hcr.
  induction scheme as [|c scheme IH]; simpl.
  - by rewrite upToSemicolon_group.
  - simpl in Hscheme. destruct (Ascii.eqb c ":"); simpl in *; [done|].
    by apply IH.
Qed.

Lemma split_prefix (sep : ascii) (a b : string) :
  includes sep a = false →
  split sep (a +:+ b)
  = match split sep b with
    | segment :: segments => (a +:+ segment) :: segments
    | [] => [a]
    end.
Proof.
  induction a as [|c a IH]; simpl.
  - intros _. change ("" +:+ b) with b. pose proof (split_length sep b).
    destruct (split sep b); simpl in *; [lia|done].
  - destruct (Ascii.eqb c sep); simpl; [done|].
    intros Ha. rewrite IH by done. by destruct (split sep b).
Qed.

(** The data URL that [handleApiResponse] builds from a MIME type and a
    payload is read back by [fileToPart] as that MIME type and that
    payload, provided the MIME type is not empty and has no semicolon,
    comma or line break, and the payload (base64 text) has no comma. *)
Theorem fileToPart_reads_back_dataUrl (mime payload : string) :
  mime ≠ "" →
  includes ";" mime = false → includes "," mime = false →
  includes "010" mime = false → includes "013" mime = false →
  includes "," payload = false →
  fileToPart
    (Resolved (GeminiService.dataUrl (GeminiService.mkBlob (Some mime) (Some payload))))
  = Resolved (mkInlineDataPart mime payload).
Proof.
  intros Hne Hsemi Hcomma Hlf Hcr Hpayload.
  unfold GeminiService.dataUrl, fileToPart. simpl interpolate.
  rewrite (split_prefix "," "data:") by done.
  rewrite (split_prefix "," mime) by done.
  change (";base64," +:+ payload) with (";base64" +:+ String "," payload).
  rewrite (split_at_first_separator "," ";base64") by done.
  rewrite (split_without_separator "," payload) by done.
  simpl length. simpl lookup. simpl default.
  change ("data:" +:+ mime +:+ ";base64")
    with ("data" +:+ String ":" (mime +:+ String ";" "base64")).
  rewrite (matchMime_first_colon "data" mime "base64") by done.
  apply truthy_Some in Hne. by rewrite Hne.
Qed.

Lemma fileToPart_reads_back_dataUrl_witness :
  fileToPart (GeminiService.handleApiResponse Examples.imageAfterText "edit")
  = Resolved (mkInlineDataPart "image/png" "AAAA").
Proof.
  by apply (fileToPart_reads_back_dataUrl "image/png" "AAAA").
Defined.

Lemma upToSemicolon_no_semicolon (s : string) :
  includes ";" s = false → upToSemicolon s = None.
Proof.
  induction s as [|c s IH]; simpl; [done|].
  destruct (Ascii.eqb c ";"); simpl; [done|].
  intros Hs. rewrite IH by done. by destruct (isLineTerminator c).
Qed.

Lemma matchMime_no_semicolon (s : string) :
  includes ";" s = false → matchMime s = None.
Proof.
  induction s as [|c s IH]; simpl; [done|].
  destruct (Ascii.eqb c ";"); simpl; [done|].
  intros Hs. rewrite IH, upToSemicolon_no_semicolon by done.
  by destruct (Ascii.eqb c ":").
Qed.

Lemma fileToPart_head (front rest : string) :
  includes "," front = false →
  fileToPart (Resolved (front +:+ String "," rest))
  = match matchMime front with
    | Some group =>
        if negb (truthy (Some group))
        then throwError "Could not parse MIME type from data URL"
        else Resolved (mkInlineDataPart group
                         (default "" (head (split "," rest))))
    | None => throwError "Could not parse MIME type from data URL"
    end.
Proof.
  intros Hhead. unfold fileToPart.
  rewrite split_at_first_separator by done.
  pose proof (split_length "," rest).
  by destruct (split "," rest); simpl in *; [lia|].
Qed.

(** A data URL without a comma is refused as invalid. One whose text
    before the first comma has no colon, or no semicolon, or nothing
    between its first colon and the semicolon, is refused for its MIME
    type. A failed read of the file is passed on as it is. *)
Theorem fileToPart_refuses_malformed :
  (∀ url, includes "," url = false →
     fileToPart (Resolved url) = throwError "Invalid data URL")
  ∧ (∀ front rest, includes "," front = false →
       includes ":" front = false ∨ includes ";" front = false →
       fileToPart (Resolved (front +:+ String "," rest))
       = throwError "Could not parse MIME type from data URL")
  ∧ (∀ scheme params rest,
       includes "," scheme = false → includes ":" scheme = false →
       includes "," params = false →
       fileToPart (Resolved ((scheme +:+ String ":" (String ";" params))
                               +:+ String "," rest))
       = throwError "Could not parse MIME type from data URL")
  ∧ (∀ thrown, fileToPart (Rejected thrown) = Rejected thrown).
Proof.
  repeat match goal with |- _ ∧ _ => split end.
  - intros url Hurl. unfold fileToPart.
    by rewrite split_without_separator.
  - intros front rest Hcomma Hhead. rewrite fileToPart_head by done.
    by destruct Hhead as [H|H];
      [rewrite matchMime_no_colon|rewrite matchMime_no_semicolon].
  - intros scheme params rest Hscheme Hcolon Hparams.
    rewrite fileToPart_head.
    + change (String ":" (String ";" params))
        with (String ":" ("" +:+ String ";" params)).
      by rewrite (matchMime_first_colon scheme "" params).
    + rewrite includes_app. simpl. by rewrite Hscheme, Hparams.
  - done.
Qed.

Lemma fileToPart_refuses_malformed_witness :
  fileToPart (Resolved "not a data url") = throwError "Invalid data URL"
  ∧ fileToPart (Resolved "image/png,AAAA")
    = throwError "Could not parse MIME type from data URL"
  ∧ fileToPart (Resolved "data:;base64,AAAA")
    = throwError "Could not parse MIME type from data URL".
Proof.
  destruct fileToPart_refuses_malformed as (Hcomma & Hmime & Hempty & _).
  split; [by apply Hcomma|]. split.
  - by apply (Hmime "image/png" "AAAA"); [|left].
  - by apply (Hempty "data" "base64" "AAAA").
Defined.

End FileToPartProperties.

(** ** Moving through the history *)

Section Navigation.

Import FileHelpers EditorView.

Lemma handleUndo_index (s : EditorState) :
  historyIndex (handleUndo s)
  = if 0 <? historyIndex s then historyIndex s - 1 else historyIndex s.
Proof. unfold handleUndo, canUndo. by destruct (0 <? historyIndex s). Qed.

Lemma handleRedo_index (s : EditorState) :
  historyIndex (handleRedo s)
  = if historyIndex s <? Z.of_nat (length (history s)) - 1
    then historyIndex s + 1 else historyIndex s.
Proof. unfold handleRedo, canRedo. by destruct (_ <? _). Qed.

(** On a history whose index is in range, a redo takes back an undo and an
    undo takes back a redo: the sequence, the index and every other field
    are as before, except that both hotspots are cleared. *)
Theorem undo_redo_round_trip (s : EditorState) :
  0 ≤ historyIndex s ≤ Z.of_nat (length (history s)) - 1 →
  (canUndo s = true →
     handleRedo (handleUndo s) = setDisplayHotspot None (setEditHotspot None s)
     ∧ currentImage (handleRedo (handleUndo s)) = currentImage s)
  ∧ (canRedo s = true →
     handleUndo (handleRedo s) = setDisplayHotspot None (setEditHotspot None s)
     ∧ currentImage (handleUndo (handleRedo s)) = currentImage s).
Proof.
  intros Hrange. destruct s as [h i l e p eh dh t c cc]. simpl in *.
  unfold handleUndo, handleRedo, canUndo, canRedo, currentImage. simpl. split.
  - intros Hundo. rewrite Hundo. simpl.
    destruct (Z.ltb_spec (i - 1) (Z.of_nat (length h) - 1)); [|lia].
    simpl. by replace (i - 1 + 1) with i by lia.
  - intros Hredo. rewrite Hredo. simpl.
    destruct (Z.ltb_spec 0 (i + 1)); [|lia].
    simpl. by replace (i + 1 - 1) with i by lia.
Qed.

Lemma undo_redo_round_trip_witness :
  handleRedo (handleUndo Examples.historyABC)
  = setDisplayHotspot None (setEditHotspot None Examples.historyABC)
  ∧ currentImage (handleRedo (handleUndo Examples.historyABC))
    = Some Examples.fileC.
Proof.
  by apply (undo_redo_round_trip Examples.historyABC).
Defined.

(** Repeated undo walks the index down to 0 and stops there, repeated
    redo walks it up to the last position and stops there; neither changes
    the sequence. An index outside these bounds is left where it is. *)
Theorem repeated_navigation_stops_at_the_ends (n : nat) (s : EditorState) :
  historyIndex (Nat.iter n handleUndo s)
  = Z.max (Z.min (historyIndex s) 0) (historyIndex s - Z.of_nat n)
  ∧ history (Nat.iter n handleUndo s) = history s
  ∧ historyIndex (Nat.iter n handleRedo s)
    = Z.min (Z.max (historyIndex s) (Z.of_nat (length (history s)) - 1))
        (historyIndex s + Z.of_nat n)
  ∧ history (Nat.iter n handleRedo s) = history s.
Proof.
  induction n as [|n (Hundo & Hundo_h & Hredo & Hredo_h)]; simpl.
  - repeat split; lia.
  - rewrite handleUndo_index, handleRedo_index, handleUndo_history,
      handleRedo_history, Hundo, Hredo, Hundo_h, Hredo_h.
    repeat split.
    + destruct (Z.ltb_spec 0
                  (Z.max (Z.min (historyIndex s) 0) (historyIndex s - Z.of_nat n)));
        lia.
    + destruct (Z.ltb_spec
                  (Z.min (Z.max (historyIndex s) (Z.of_nat (length (history s)) - 1))
                     (historyIndex s + Z.of_nat n))
                  (Z.of_nat (length (history s)) - 1)); lia.
Qed.

End Navigation.

(** ** Refused generations and the credit balance *)

Section Refusals.

Import FileHelpers EditorView Accounting.

Variable dataURLtoFile : string → string → Outcome File.

Lemma handleGenericGeneration_denied apiCall fileNamePrefix now w :
  (App.checkUserCanGenerate (app w)).1 = false →
  handleGenericGeneration dataURLtoFile apiCall fileNamePrefix now w
  = (None, mkWorld (App.checkUserCanGenerate (app w)).2 (editor w)).
Proof.
  unfold handleGenericGeneration, handleGenericGeneration_call.
  destruct (App.checkUserCanGenerate (app w)) as [allowed st']. simpl.
  by intros ->.
Qed.

Ltac unfold_generation_handlers :=
  unfold handleGenerate, handleApplyFilter, handleApplyAdjustment,
    combinePanelHandleApply, handleCombineImages, handleExpandImage.

Ltac case_guards Hrun :=
  repeat (match goal with
          | |- context [match ?x with _ => _ end] => destruct x
          end; simpl; rewrite ?Hrun; simpl).

(** When the gate denies, none of the five generation handlers depends on
    what the endpoint would answer, and none touches the editor state or
    the user table: the sequence, its index, the hotspots and every credit
    balance stay as they are. *)
Theorem denied_generation_is_inert (a : Action) (w : World) :
  isGeneration a = true →
  (App.checkUserCanGenerate (app w)).1 = false →
  (editor (step dataURLtoFile a w) = editor w
   ∨ ∃ message, editor (step dataURLtoFile a w) = setError (Some message) (editor w))
  ∧ history (editor (step dataURLtoFile a w)) = history (editor w)
  ∧ historyIndex (editor (step dataURLtoFile a w)) = historyIndex (editor w)
  ∧ App.users (app (step dataURLtoFile a w)) = App.users (app w)
  ∧ (∀ reply now reply' now',
       handleGenerate dataURLtoFile reply now w
         = handleGenerate dataURLtoFile reply' now' w
       ∧ handleApplyFilter dataURLtoFile reply now w
         = handleApplyFilter dataURLtoFile reply' now' w
       ∧ handleApplyAdjustment dataURLtoFile reply now w
         = handleApplyAdjustment dataURLtoFile reply' now' w
       ∧ handleCombineImages dataURLtoFile reply now w
         = handleCombineImages dataURLtoFile reply' now' w
       ∧ handleExpandImage dataURLtoFile reply now w
         = handleExpandImage dataURLtoFile reply' now' w).
Proof.
  intros Hgen Hdenied.
  pose proof (λ apiCall prefix now,
    handleGenericGeneration_denied apiCall prefix now w Hdenied) as Hrun.
  assert (Husers : App.users (App.checkUserCanGenerate (app w)).2
                   = App.users (app w)).
  { destruct (App.checkUserCanGenerate (app w)) as [allowed st'] eqn:Hcheck.
    simpl in *. subst allowed. by apply checkUserCanGenerate_denies in Hcheck. }
  split; [|split; [|split; [|split]]].
  1-4: destruct a; try done; simpl; unfold_generation_handlers;
    rewrite ?Hrun; case_guards Hrun; eauto.
  intros reply now reply' now'. unfold_generation_handlers.
  by rewrite !Hrun.
Qed.

Lemma handleGenericGeneration_app apiCall fileNamePrefix now w :
  AppAfterAction (app w)
    (app (handleGenericGeneration dataURLtoFile apiCall fileNamePrefix now w).2).
Proof.
  destruct (handleGenericGeneration_end dataURLtoFile apiCall fileNamePrefix now w)
    as [st' Hdenied | err _ _ | cu url image Hgate Hcu _ _]; simpl.
  - split; [|left; by apply checkUserCanGenerate_denies in Hdenied].
    revert Hdenied. unfold App.checkUserCanGenerate.
    destruct (App.currentUser (app w)) as [cu|]; [|by intros [= <-]].
    destruct (negb (App.isEnabled cu)); [by intros [= <-]|].
    destruct (_ && _); by intros [= <-].
  - split; [done|by left].
  - destruct (App.checkUserCanGenerate (app w)) as [allowed st'] eqn:Hcheck.
    simpl in Hgate. subst allowed.
    destruct (checkUserCanGenerate_permits _ _ Hcheck)
      as (_ & cu' & Hcu' & _ & Hbalance).
    rewrite Hcu in Hcu'. injection Hcu' as <-.
    destruct (App.role cu) eqn:Hrole; (split; [done|]); [by left|].
    right. exists cu. destruct Hbalance as [[=]|[_ Hpos]]. done.
Qed.

Lemma AppAfterAction_refl (st : App.AppState) : AppAfterAction st st.
Proof. split; [done|by left]. Qed.

Lemma step_app (a : Action) (w : World) :
  AppAfterAction (app w) (app (step dataURLtoFile a w)).
Proof.
  destruct a; simpl; try apply AppAfterAction_refl;
    unfold handleGenerate, handleApplyFilter, handleApplyAdjustment,
      combinePanelHandleApply, handleCombineImages, handleExpandImage;
    repeat (match goal with
            | |- context [match ?x with Some _ => _ | None => _ end] =>
                destruct x
            | |- context [if ?x then _ else _] => destruct x
            end; simpl);
    try apply AppAfterAction_refl;
    try apply handleGenericGeneration_app.
  pose proof (handleGenericGeneration_app
                (GeminiService.generateEditedImage reply) "edited" now w) as H.
  by destruct (handleGenericGeneration _ _ _ _ _) as [[[|]|] w1].
Qed.

Lemma DebitedFrom_refl (u : App.User) : 0 ≤ App.credits u → DebitedFrom u u.
Proof. unfold DebitedFrom. intros. repeat split; lia. Qed.

Lemma DebitedFrom_trans (u1 u2 u3 : App.User) :
  DebitedFrom u1 u2 → DebitedFrom u2 u3 → DebitedFrom u1 u3.
Proof.
  unfold DebitedFrom.
  intros (? & ? & ? & ? & ? & ?) (? & ? & ? & ? & ? & ?).
  repeat split; try congruence; lia.
Qed.

Lemma Forall2_DebitedFrom_refl (table : list App.User) :
  Forall (λ u, 0 ≤ App.credits u) table → Forall2 DebitedFrom table table.
Proof.
  induction 1; constructor; [by apply DebitedFrom_refl|done].
Qed.

Lemma Forall2_DebitedFrom_nonneg (table table' : list App.User) :
  Forall2 DebitedFrom table table' → Forall (λ u, 0 ≤ App.credits u) table'.
Proof.
  induction 1 as [|u u' ? ? (_ & _ & _ & _ & _ & ?)]; constructor; [lia|done].
Qed.

Lemma updateUserCredits_debits (userId : string) (st : App.AppState) :
  Forall (λ u, 0 ≤ App.credits u) (App.users st) →
  Forall2 DebitedFrom (App.users st)
    (App.users (App.updateUserCredits userId (-1) st)).
Proof.
  simpl. induction 1 as [|u table Hu _ IH]; simpl; constructor; [|done].
  destruct (String.eqb (App.id u) userId);
    unfold DebitedFrom; simpl; repeat split; lia.
Qed.

Lemma step_debits (a : Action) (w : World) :
  Forall (λ u, 0 ≤ App.credits u) (App.users (app w)) →
  Forall2 DebitedFrom (App.users (app w))
    (App.users (app (step dataURLtoFile a w))).
Proof.
  intros Hnonneg.
  destruct (step_app a w) as [_ [->|(cu & _ & _ & _ & ->)]].
  - by apply Forall2_DebitedFrom_refl.
  - by apply updateUserCredits_debits.
Qed.

(** No sequence of editor actions adds a credit to anyone, makes a balance
    negative, or changes who is logged in: on a table without negative
    balances every user keeps id, email, password, role and status, and
    ends with a balance between zero and the one the user had. *)
Theorem editor_actions_only_debit (actions : list Action) (w : World) :
  Forall (λ u, 0 ≤ App.credits u) (App.users (app w)) →
  Forall2 DebitedFrom (App.users (app w))
    (App.users (app (run dataURLtoFile actions w)))
  ∧ App.currentUserId (app (run dataURLtoFile actions w))
    = App.currentUserId (app w).
Proof.
  revert w. unfold run.
  induction actions as [|a actions IH]; intros w Hnonneg; simpl.
  - split; [by apply Forall2_DebitedFrom_refl|done].
  - pose proof (step_debits a w Hnonneg) as Hstep.
    destruct (IH (step dataURLtoFile a w)) as [Hrest Hid].
    { by eapply Forall2_DebitedFrom_nonneg. }
    split.
    + eapply Forall2_trans; [|exact Hstep|exact Hrest].
      apply DebitedFrom_trans.
    + rewrite Hid. by destruct (step_app a w) as [-> _].
Qed.

(** An admin session never pays: whatever the editor does while the
    current user is an admin, the user table stays exactly as it was. *)
Theorem admin_session_is_never_debited
    (actions : list Action) (w : World) (cu : App.User) :
  App.currentUser (app w) = Some cu → App.role cu = App.admin →
  App.users (app (run dataURLtoFile actions w)) = App.users (app w).
Proof.
  revert w. unfold run.
  induction actions as [|a actions IH]; intros w Hcu Hadmin; simpl; [done|].
  destruct (step_app a w) as [Hid [Husers|(cu' & Hcu' & Hrole & _)]].
  - rewrite IH; [done| |done].
    unfold App.currentUser in *. by rewrite Hid, Husers.
  - rewrite Hcu in Hcu'. injection Hcu' as <-. congruence.
Qed.

End Refusals.

Section RefusalExamples.

Import FileHelpers EditorView Accounting.

Lemma denied_generation_is_inert_witness :
  history (editor (step Examples.decodeDataUrl
                     (ApplyFilter Examples.goodReply 1700000000000)
                     MoreExamples.charlieWorld))
  = [Examples.fileA]
  ∧ App.users (app (step Examples.decodeDataUrl
                      (ApplyFilter Examples.goodReply 1700000000000)
                      MoreExamples.charlieWorld))
    = App.initialUsers.
Proof.
  destruct (denied_generation_is_inert Examples.decodeDataUrl
              (ApplyFilter Examples.goodReply 1700000000000)
              MoreExamples.charlieWorld eq_refl eq_refl)
    as (_ & Hh & _ & Husers & _).
  by split.
Defined.

Lemma editor_actions_only_debit_witness :
  Forall2 DebitedFrom App.initialUsers
    (App.users (app (run Examples.decodeDataUrl
                       [ApplyFilter Examples.goodReply 1700000000000; Undo;
                        ApplyAdjustment Examples.goodReply 1700000000001]
                       Examples.bobWorld))).
Proof.
  apply (editor_actions_only_debit Examples.decodeDataUrl
           [ApplyFilter Examples.goodReply 1700000000000; Undo;
            ApplyAdjustment Examples.goodReply 1700000000001]
           Examples.bobWorld).
  repeat constructor; simpl; lia.
Defined.

Lemma admin_session_is_never_debited_witness :
  App.users (app (run Examples.decodeDataUrl
                    [ApplyFilter Examples.goodReply 1700000000000;
                     ExpandImage Examples.goodReply 1700000000001]
                    Examples.aliceWorld))
  = App.initialUsers.
Proof.
  by apply (admin_session_is_never_debited Examples.decodeDataUrl
              [ApplyFilter Examples.goodReply 1700000000000;
               ExpandImage Examples.goodReply 1700000000001]
              Examples.aliceWorld
              (App.mkUser "u001" "alice@example.com" (Some "adminpassword")
                 999 true App.admin)).
Defined.

End RefusalExamples.

(** ** The session *)

Section Session.

Import App AppShell.

Lemma passwordIs_spec (u : User) (p : string) :
  passwordIs u p = true ↔ password u = Some p.
Proof.
  unfold passwordIs. destruct (password u) as [q|]; [|done].
  destruct (String.eqb_spec q p); split; congruence.
Qed.

Lemma credentials_match (u : User) (e p : string) :
  String.eqb (email u) e && passwordIs u p = true
  ↔ email u = e ∧ password u = Some p.
Proof.
  rewrite andb_true_iff, passwordIs_spec.
  by destruct (String.eqb_spec (email u) e); split; intros [? ?].
Qed.

Lemma find_by_id_is_Some (cid : string) (table : list User) (u : User) :
  u ∈ table → id u = cid →
  ∃ cu, find (λ v, String.eqb (id v) cid) table = Some cu ∧ id cu = cid.
Proof.
  intros Hin Hid.
  destruct (find (λ v, String.eqb (id v) cid) table) as [cu|] eqn:Hfind.
  - exists cu. split; [done|]. apply find_some in Hfind as [_ Heq].
    by apply String.eqb_eq.
  - apply list_elem_of_In in Hin.
    pose proof (find_none _ _ Hfind u Hin) as Hno. simpl in Hno.
    rewrite Hid, String.eqb_refl in Hno. done.
Qed.

Lemma find_by_unique_id (table : list User) (u : User) :
  NoDup (map id table) → u ∈ table →
  find (λ v, String.eqb (id v) (id u)) table = Some u.
Proof.
  induction table as [|v table IH]; simpl; [by intros _ ?%elem_of_nil|].
  intros [Hfresh Hrest]%NoDup_cons [->|Hin]%elem_of_cons.
  - by rewrite String.eqb_refl.
  - destruct (String.eqb_spec (id v) (id u)) as [Heq|_]; [|by apply IH].
    exfalso. apply Hfresh. rewrite Heq. by apply list_elem_of_fmap_2.
Qed.

Lemma find_first {A} (f : A → bool) (l : list A) (x : A) :
  find f l = Some x →
  ∃ before after, l = before ++ x :: after
    ∧ Forall (λ v, f v = false) before ∧ f x = true.
Proof.
  induction l as [|v l IH]; [done|]. simpl.
  destruct (f v) eqn:Hv.
  - intros [= ->]. by exists [], l.
  - intros (before & after & -> & Hbefore & Hx)%IH.
    exists (v :: before), after. split; [done|]. split; [|done].
    by constructor.
Qed.

(** Logging in succeeds exactly when some user of the table has the given
    email and password, whether the account is enabled or not. It then
    opens the session of the first such user in the order of the table (no
    user before it has both the email and the password), clears the error
    and sends an admin to the admin route; with ids that are unique that
    user is the current user. A failed login sets the error message to
    "Invalid email or password." and leaves the session and the route as
    they were. The user table is never changed. *)
Theorem handleLogin_checks_credentials (e p : string) (sh : ShellState) :
  ((handleLogin e p sh).1 = true
   ↔ ∃ u, u ∈ users (core sh) ∧ email u = e ∧ password u = Some p)
  ∧ ((handleLogin e p sh).1 = true →
     ∃ before u after, users (core sh) = before ++ u :: after
       ∧ Forall (λ v, ¬ (email v = e ∧ password v = Some p)) before
       ∧ email u = e ∧ password u = Some p
       ∧ currentUserId (core (handleLogin e p sh).2) = Some (id u)
       ∧ error (core (handleLogin e p sh).2) = None
       ∧ route (handleLogin e p sh).2
         = (if Role_eqb (role u) admin then "admin" else route sh)
       ∧ is_Some (currentUser (core (handleLogin e p sh).2))
       ∧ (NoDup (map id (users (core sh))) →
          currentUser (core (handleLogin e p sh).2) = Some u))
  ∧ ((handleLogin e p sh).1 = false →
     error (core (handleLogin e p sh).2) = Some invalidLoginMessage
     ∧ currentUserId (core (handleLogin e p sh).2) = currentUserId (core sh)
     ∧ route (handleLogin e p sh).2 = route sh
     ∧ (handleLogin e p sh).2 = onCore (setError (Some invalidLoginMessage)) sh)
  ∧ users (core (handleLogin e p sh).2) = users (core sh)
  ∧ pendingTransactions (handleLogin e p sh).2 = pendingTransactions sh
  ∧ showPaywall (core (handleLogin e p sh).2) = showPaywall (core sh).
Proof.
  unfold handleLogin.
  destruct (find _ (users (core sh))) as [found|] eqn:Hfind; cbn [fst snd].
  - pose proof (find_first _ _ _ Hfind)
      as (before & after & Husers & Hbefore & _).
    apply find_some in Hfind as [Hin [He Hp]%credentials_match].
    apply list_elem_of_In in Hin.
    assert (Hcore : core (onCore (setError None)
                            (if Role_eqb (role found) admin
                             then setRoute "admin"
                                    (onCore (setCurrentUserId (Some (id found))) sh)
                             else onCore (setCurrentUserId (Some (id found))) sh))
                    = setError None (setCurrentUserId (Some (id found)) (core sh)))
      by (by destruct (Role_eqb (role found) admin)).
    rewrite Hcore.
    split; [split; [|done]; intros _; by exists found|].
    split; [|split; [done|]].
    + intros _. exists before, found, after.
      repeat match goal with |- _ ∧ _ => split end; try done.
      * eapply Forall_impl; [exact Hbefore|].
        intros v Hno Hv. simpl in Hno.
        by rewrite (proj2 (credentials_match v e p) Hv) in Hno.
      * by destruct (Role_eqb (role found) admin).
      * destruct (find_by_id_is_Some (id found) (users (core sh)) found)
          as (cu & Hcu & _); [done..|].
        by exists cu.
      * intros Hnodup. by apply find_by_unique_id.
    + split; [done|]. split; [|done]. by destruct (Role_eqb (role found) admin).
  - split; [split; [done|]|].
    + intros (u & Hin & He & Hp). apply list_elem_of_In in Hin.
      pose proof (find_none _ _ Hfind u Hin) as Hno. simpl in Hno.
      by rewrite (proj2 (credentials_match u e p)) in Hno.
    + by repeat split.
Qed.

Lemma handleLogin_checks_credentials_witness :
  currentUserId
    (core (handleLogin "diana@example.com" "password123"
             (MoreExamples.shellOf None [])).2)
  = Some "u004".
Proof.
  destruct (handleLogin_checks_credentials "diana@example.com" "password123"
              (MoreExamples.shellOf None [])) as (_ & Hlogin & _).
  destruct (Hlogin eq_refl) as (before & u & after & Husers & Hbefore & He & _ & Hid & _).
  rewrite Hid. f_equal.
  assert (Hin : u ∈ users (core (MoreExamples.shellOf None [])))
    by (rewrite Husers; apply elem_of_app; right; apply elem_of_cons; by left).
  clear Husers Hbefore.
  repeat (apply elem_of_cons in Hin as [->|Hin]; [by simplify_eq/=|]).
  by apply elem_of_nil in Hin.
Defined.

(** Logging out closes the session whatever the state: there is no
    current user, the route is reset, and the gate then returns false and
    leaves the not-logged-in message in the error state; the user table
    and the transactions stay, and a later login succeeds or fails as it
    would have before. *)
Theorem handleLogout_closes_session (sh : ShellState) :
  currentUserId (core (handleLogout sh)) = None
  ∧ currentUser (core (handleLogout sh)) = None
  ∧ route (handleLogout sh) = ""
  ∧ users (core (handleLogout sh)) = users (core sh)
  ∧ pendingTransactions (handleLogout sh) = pendingTransactions sh
  ∧ (checkUserCanGenerate (core (handleLogout sh))).1 = false
  ∧ error (checkUserCanGenerate (core (handleLogout sh))).2
    = Some notLoggedInMessage
  ∧ showPaywall (checkUserCanGenerate (core (handleLogout sh))).2
    = showPaywall (core sh)
  ∧ (∀ e p, (handleLogin e p (handleLogout sh)).1 = (handleLogin e p sh).1).
Proof.
  repeat match goal with |- _ ∧ _ => split end; try reflexivity.
  intros e p. unfold handleLogin. simpl.
  by destruct (find _ (users (core sh))).
Qed.

End Session.

(** ** The admin's operations *)

Section Administration.

Import App AppShell.

Lemma withEnabled_twice (u : User) :
  withEnabled (withEnabled u (negb (isEnabled u)))
    (negb (isEnabled (withEnabled u (negb (isEnabled u))))) = u.
Proof. destruct u as [? ? ? ? e ?]. simpl. by rewrite negb_involutive. Qed.

(** Toggling the status of a user twice gives back the state it started
    from. *)
Theorem handleToggleUserStatus_involutive (userId : string) (st : AppState) :
  handleToggleUserStatus userId (handleToggleUserStatus userId st) = st.
Proof.
  destruct st as [e c s table]. unfold handleToggleUserStatus, setUsers. simpl.
  f_equal. rewrite map_map. rewrite <- (map_id table) at 2.
  apply map_ext. intros u.
  destruct (String.eqb (id u) userId) eqn:Hid; simpl; [|by rewrite Hid].
  rewrite Hid. apply withEnabled_twice.
Qed.

Lemma currentUser_handleToggleUserStatus (st : AppState) (cu : User) :
  currentUser st = Some cu →
  currentUser (handleToggleUserStatus (id cu) st)
  = Some (withEnabled cu (negb (isEnabled cu))).
Proof.
  intros Hcu. pose proof (currentUser_id _ _ Hcu) as Hid.
  unfold currentUser in *. simpl. rewrite Hid in *. simpl in *.
  rewrite find_map_same_id, Hcu.
  - simpl. by rewrite String.eqb_refl.
  - intros u. by destruct (String.eqb (id u) (id cu)).
Qed.

(** Disabling the account of the current user locks the gate, whatever
    the role and the balance, an admin included: the gate returns false and
    leaves the disabled message in the error state, without opening the
    paywall. Enabling the account again gives back the state in which the
    gate was open. *)
Theorem disabling_locks_the_gate (st : AppState) (cu : User) :
  currentUser st = Some cu → isEnabled cu = true →
  (∃ disabled, currentUser (handleToggleUserStatus (id cu) st) = Some disabled
     ∧ isEnabled disabled = false ∧ id disabled = id cu
     ∧ role disabled = role cu ∧ credits disabled = credits cu)
  ∧ (checkUserCanGenerate (handleToggleUserStatus (id cu) st)).1 = false
  ∧ error (checkUserCanGenerate (handleToggleUserStatus (id cu) st)).2
    = Some disabledMessage
  ∧ showPaywall (checkUserCanGenerate (handleToggleUserStatus (id cu) st)).2
    = showPaywall st
  ∧ handleToggleUserStatus (id cu) (handleToggleUserStatus (id cu) st) = st.
Proof.
  intros Hcu Henabled.
  pose proof (currentUser_handleToggleUserStatus _ _ Hcu) as Htoggled.
  split; [|split; [|split; [|split]]].
  - eexists. split; [exact Htoggled|]. simpl. by rewrite Henabled.
  - unfold checkUserCanGenerate. rewrite Htoggled. simpl. by rewrite Henabled.
  - unfold checkUserCanGenerate. rewrite Htoggled. simpl. by rewrite Henabled.
  - unfold checkUserCanGenerate. rewrite Htoggled. simpl. by rewrite Henabled.
  - clear. destruct st as [e c s table].
    unfold handleToggleUserStatus, setUsers. simpl.
    f_equal. rewrite map_map. rewrite <- (map_id table) at 2.
    apply map_ext. intros u.
    destruct (String.eqb (id u) (id cu)) eqn:Hid; simpl; [|by rewrite Hid].
    rewrite Hid. apply withEnabled_twice.
Qed.

Lemma disabling_locks_the_gate_witness :
  (checkUserCanGenerate (handleToggleUserStatus "u001" (Examples.appOf "u001"))).1
  = false
  ∧ error (checkUserCanGenerate
             (handleToggleUserStatus "u001" (Examples.appOf "u001"))).2
    = Some "Your account has been disabled by an administrator.".
Proof.
  destruct (disabling_locks_the_gate (Examples.appOf "u001")
              (mkUser "u001" "alice@example.com" (Some "adminpassword") 999 true admin)
              eq_refl eq_refl) as (_ & Hgate & Herror & _).
  split; [exact Hgate|exact Herror].
Defined.

Lemma filter_txId_none (approved : string) (pending : list Transaction) :
  find (λ tx, String.eqb (txId tx) approved)
    (filter (λ tx, negb (String.eqb (txId tx) approved)) pending) = None.
Proof.
  induction pending as [|tx pending IH]; [done|].
  rewrite filter_cons.
  destruct (decide _) as [Hkeep|_]; [|done].
  simpl. by destruct (String.eqb (txId tx) approved).
Qed.

Lemma filter_txId_idempotent (approved : string) (pending : list Transaction) :
  find (λ tx, String.eqb (txId tx) approved) pending = None →
  filter (λ tx, negb (String.eqb (txId tx) approved)) pending = pending.
Proof.
  induction pending as [|tx pending IH]; [done|]. simpl.
  destruct (String.eqb (txId tx) approved) eqn:Hid; [done|].
  intros Hnone. rewrite filter_cons, decide_True by (by rewrite Hid).
  by rewrite IH.
Qed.

(** Approving a transaction credits the user of the first pending
    transaction with that id (never below zero) and removes every pending
    transaction with that id, keeping the others in order. An id that is
    not pending changes nothing, so a second approval of the same
    transaction cannot credit twice. *)
Theorem handleApproveTransaction_credits_once
    (approved : string) (creditsToAdd : Z) (sh : ShellState) :
  (find (λ tx, String.eqb (txId tx) approved) (pendingTransactions sh) = None →
     handleApproveTransaction approved creditsToAdd sh = sh)
  ∧ (∀ first,
       find (λ tx, String.eqb (txId tx) approved) (pendingTransactions sh)
         = Some first →
       core (handleApproveTransaction approved creditsToAdd sh)
         = updateUserCredits (userId first) creditsToAdd (core sh)
       ∧ pendingTransactions (handleApproveTransaction approved creditsToAdd sh)
         = filter (λ tx, negb (String.eqb (txId tx) approved))
             (pendingTransactions sh))
  ∧ (∀ tx, tx ∈ pendingTransactions
                  (handleApproveTransaction approved creditsToAdd sh) →
       txId tx ≠ approved)
  ∧ (∀ again,
       handleApproveTransaction approved again
         (handleApproveTransaction approved creditsToAdd sh)
       = handleApproveTransaction approved creditsToAdd sh).
Proof.
  unfold handleApproveTransaction.
  destruct (find _ (pendingTransactions sh)) as [first|] eqn:Hfind.
  - split; [done|]. split; [by intros ? [= <-]|]. split.
    + intros tx Htx. simpl in Htx.
      apply list_elem_of_filter in Htx as [Hne _].
      intros Heq. by rewrite Heq, String.eqb_refl in Hne.
    + intros again. simpl. by rewrite filter_txId_none.
  - split; [done|]. split; [done|]. split.
    + intros tx Htx%list_elem_of_In Heq.
      pose proof (find_none _ _ Hfind tx Htx) as Hno. simpl in Hno.
      by rewrite Heq, String.eqb_refl in Hno.
    + intros again. by rewrite Hfind.
Qed.

Lemma handleApproveTransaction_credits_once_witness :
  App.credits <$>
    currentUser (core (AdminDashboard.approveClick MoreExamples.charlieTx
                         (MoreExamples.shellOf (Some "u003")
                            [MoreExamples.charlieTx])))
  = Some 15
  ∧ pendingTransactions
      (AdminDashboard.approveClick MoreExamples.charlieTx
         (MoreExamples.shellOf (Some "u003") [MoreExamples.charlieTx]))
    = [].
Proof.
  destruct (handleApproveTransaction_credits_once "tx_1700000000000" 15
              (MoreExamples.shellOf (Some "u003") [MoreExamples.charlieTx]))
    as (_ & Hfirst & _).
  destruct (Hfirst MoreExamples.charlieTx eq_refl) as [Hcore Hpending].
  unfold AdminDashboard.approveClick. simpl txId. simpl creditsAmount.
  by rewrite Hcore, Hpending.
Defined.

(** Rejecting a transaction removes every pending transaction with that
    id and leaves the [App] state, the credits included, alone; a rejected
    transaction can no longer be approved. *)
Theorem handleRejectTransaction_never_credits (rejected : string) (sh : ShellState) :
  core (handleRejectTransaction rejected sh) = core sh
  ∧ (∀ tx, tx ∈ pendingTransactions (handleRejectTransaction rejected sh)
       ↔ tx ∈ pendingTransactions sh ∧ txId tx ≠ rejected)
  ∧ (∀ creditsToAdd,
       handleApproveTransaction rejected creditsToAdd
         (handleRejectTransaction rejected sh)
       = handleRejectTransaction rejected sh).
Proof.
  split; [done|]. split.
  - intros tx. simpl. rewrite list_elem_of_filter.
    destruct (String.eqb_spec (txId tx) rejected); simpl; tauto.
  - intros creditsToAdd. unfold handleApproveTransaction. simpl.
    by rewrite filter_txId_none.
Qed.

Lemma find_txId_app_fresh (fresh : string) (pending : list Transaction)
    (tx : Transaction) :
  find (λ t, String.eqb (txId t) fresh) pending = None → txId tx = fresh →
  find (λ t, String.eqb (txId t) fresh) (pending ++ [tx]) = Some tx.
Proof.
  intros Hnone Hid. induction pending as [|t pending IH]; simpl in *.
  - by rewrite Hid, String.eqb_refl.
  - destruct (String.eqb (txId t) fresh); [done|]. by apply IH.
Qed.

(** Submitting the paywall form never changes a balance. With a package
    and a screenshot chosen, a session open and the screenshot read, it
    queues exactly one transaction, for the current user and the chosen
    package, behind the pending ones. The form reports the submission as
    soon as a package and a screenshot are chosen, also when nothing is
    queued because there is no session or the screenshot cannot be read;
    without a package or a screenshot nothing happens at all. *)
Theorem paywall_submission_queues_one_request
    (read : Outcome string) (now : Z) (isoNow : string)
    (m : PaywallModal.ModalState) (sh : ShellState) :
  core (PaywallModal.handleSubmit read now isoNow m sh).2 = core sh
  ∧ (∀ chosen shot,
       PaywallModal.selectedPackage m = Some chosen →
       PaywallModal.screenshot m = Some shot →
       PaywallModal.isSubmitted (PaywallModal.handleSubmit read now isoNow m sh).1
         = true
       ∧ (∀ cu url, currentUser (core sh) = Some cu → read = Resolved url →
            pendingTransactions (PaywallModal.handleSubmit read now isoNow m sh).2
            = pendingTransactions sh
                ++ [mkTransaction ("tx_" +:+ pretty now) (id cu) (email cu)
                      (PaywallModal.credits chosen) (PaywallModal.price chosen)
                      url isoNow])
       ∧ (currentUser (core sh) = None ∨ (∃ thrown, read = Rejected thrown) →
            (PaywallModal.handleSubmit read now isoNow m sh).2 = sh))
  ∧ (PaywallModal.selectedPackage m = None ∨ PaywallModal.screenshot m = None →
       PaywallModal.handleSubmit read now isoNow m sh = (m, sh)).
Proof.
  unfold PaywallModal.handleSubmit, handleSubmitForReview.
  split; [|split].
  - destruct (PaywallModal.selectedPackage m), (PaywallModal.screenshot m);
      try done.
    by destruct (currentUser (core sh)), read.
  - intros chosen shot -> ->. simpl. split; [done|]. split.
    + by intros cu url -> ->.
    + intros [->|(thrown & ->)]; [done|].
      by destruct (currentUser (core sh)).
  - intros [->| ->]; [done|].
    by destruct (PaywallModal.selectedPackage m).
Qed.

Lemma paywall_submission_queues_one_request_witness :
  pendingTransactions
    (PaywallModal.handleSubmit (Resolved "data:image/png;base64,SHOT")
       1700000000000 "2023-11-14T22:13:20.000Z" MoreExamples.readyModal
       (MoreExamples.shellOf (Some "u003") [])).2
  = [MoreExamples.charlieTx].
Proof.
  destruct (paywall_submission_queues_one_request
              (Resolved "data:image/png;base64,SHOT")
              1700000000000 "2023-11-14T22:13:20.000Z" MoreExamples.readyModal
              (MoreExamples.shellOf (Some "u003") []))
    as (_ & Hqueued & _).
  destruct (Hqueued _ _ eq_refl eq_refl) as (_ & Hpending & _).
  by rewrite (Hpending _ _ eq_refl eq_refl).
Defined.

(** A purchase from request to approval: an enabled user with a balance
    that is not negative submits one of the offered packages, the admin
    approves the queued transaction in a session of the admin's own, and
    the user's session is opened again. The balance has then grown by the
    credits of the package, the queue is as it was before the request, and
    the gate permits the user to generate. The transaction id, made from
    the clock, is assumed not to be pending already. *)
Theorem approved_purchase_opens_the_gate
    (url : string) (now : Z) (isoNow : string)
    (m : PaywallModal.ModalState) (sh : ShellState) (reviewer : option string)
    (cu : User) (chosen : PaywallModal.Package) (shot : FileHelpers.File) :
  currentUser (core sh) = Some cu → isEnabled cu = true → 0 ≤ credits cu →
  chosen ∈ PaywallModal.packages →
  PaywallModal.selectedPackage m = Some chosen →
  PaywallModal.screenshot m = Some shot →
  find (λ t, String.eqb (txId t) ("tx_" +:+ pretty now)) (pendingTransactions sh)
    = None →
  let queued :=
    mkTransaction ("tx_" +:+ pretty now) (id cu) (email cu)
      (PaywallModal.credits chosen) (PaywallModal.price chosen) url isoNow in
  let approved :=
    AdminDashboard.approveClick queued
      (onCore (setCurrentUserId reviewer)
         (PaywallModal.handleSubmit (Resolved url) now isoNow m sh).2) in
  let reopened := setCurrentUserId (Some (id cu)) (core approved) in
  pendingTransactions approved = pendingTransactions sh
  ∧ currentUser reopened
    = Some (withCredits cu (credits cu + PaywallModal.credits chosen))
  ∧ checkUserCanGenerate reopened = (true, reopened).
Proof.
  intros Hcu Henabled Hbalance Hoffered Hpackage Hshot Hfresh
    queued approved reopened.
  assert (Hpositive : 0 < PaywallModal.credits chosen).
  { repeat (apply elem_of_cons in Hoffered as [->|Hoffered]; [simpl; lia|]).
    by apply elem_of_nil in Hoffered. }
  assert (Hsubmitted :
    (PaywallModal.handleSubmit (Resolved url) now isoNow m sh).2
    = setPendingTransactions (λ prev, prev ++ [queued]) sh).
  { unfold PaywallModal.handleSubmit, handleSubmitForReview.
    by rewrite Hpackage, Hshot, Hcu. }
  assert (Happroved :
    approved
    = mkShellState
        (updateUserCredits (id cu) (PaywallModal.credits chosen)
           (setCurrentUserId reviewer (core sh)))
        (route sh) (pendingTransactions sh)).
  { unfold approved, AdminDashboard.approveClick, handleApproveTransaction.
    rewrite Hsubmitted. simpl.
    rewrite (find_txId_app_fresh _ _ queued Hfresh eq_refl). simpl.
    unfold setPendingTransactions. simpl. f_equal.
    rewrite filter_app, filter_txId_idempotent by done.
    rewrite filter_cons, decide_False, filter_nil, app_nil_r; [done|].
    change (txId queued) with ("tx_" +:+ pretty now).
    rewrite String.eqb_refl. by intros []. }
  assert (Hreopened :
    reopened = updateUserCredits (id cu) (PaywallModal.credits chosen) (core sh)).
  { unfold reopened. rewrite Happroved. unfold updateUserCredits, setUsers.
    simpl. by rewrite (currentUser_id _ _ Hcu). }
  rewrite Happroved, Hreopened. simpl.
  pose proof (currentUser_updateUserCredits (core sh) cu
                (PaywallModal.credits chosen) Hcu) as Hcredited.
  replace (Z.max 0 (credits cu + PaywallModal.credits chosen))
    with (credits cu + PaywallModal.credits chosen) in Hcredited by lia.
  split; [done|]. split; [done|].
  unfold checkUserCanGenerate. rewrite Hcredited. simpl. rewrite Henabled. simpl.
  destruct (Z.leb_spec (credits cu + PaywallModal.credits chosen) 0); [lia|].
  by rewrite andb_false_r.
Qed.

Lemma approved_purchase_opens_the_gate_witness :
  (checkUserCanGenerate
     (setCurrentUserId (Some "u003")
        (core (AdminDashboard.approveClick MoreExamples.charlieTx
                 (onCore (setCurrentUserId (Some "u001"))
                    (PaywallModal.handleSubmit
                       (Resolved "data:image/png;base64,SHOT")
                       1700000000000 "2023-11-14T22:13:20.000Z"
                       MoreExamples.readyModal
                       (MoreExamples.shellOf (Some "u003") [])).2))))).1
  = true.
Proof.
  assert (Hoffered : PaywallModal.mkPackage 15 "100 EGP" ∈ PaywallModal.packages).
  { apply elem_of_cons. right. apply elem_of_cons. by left. }
  destruct (approved_purchase_opens_the_gate "data:image/png;base64,SHOT"
              1700000000000 "2023-11-14T22:13:20.000Z" MoreExamples.readyModal
              (MoreExamples.shellOf (Some "u003") []) (Some "u001")
              (mkUser "u003" "charlie@example.com" (Some "password123") 0 true user)
              (PaywallModal.mkPackage 15 "100 EGP") Examples.fileA
              eq_refl eq_refl (Z.le_refl 0) Hoffered eq_refl eq_refl eq_refl)
    as (_ & _ & Hgate).
  exact (f_equal fst Hgate).
Defined.

End Administration.

(** ** The stored user table and the dashboard count *)

Section Storage.

Import App AppShell Persistence.

Lemma PasswordsAsInitial_initialUsers : PasswordsAsInitial initialUsers.
Proof. by repeat constructor. Qed.

Lemma PasswordsAsInitial_map (f : User → User) (table : list User) :
  (∀ u, id (f u) = id u ∧ password (f u) = password u) →
  PasswordsAsInitial table → PasswordsAsInitial (map f table).
Proof.
  intros Hf. unfold PasswordsAsInitial.
  induction 1 as [|u table Hu _ IH]; simpl; constructor; [|done].
  destruct (Hf u) as [-> ->]. done.
Qed.

(** Saving the user table drops the passwords and loading gives each user
    the password of the initial user with the same id, so a table whose
    passwords are those of the initial users comes back from storage
    exactly as it was saved. The initial table is such a table, and credit
    updates and status toggles keep it one; without stored data the
    initial table is loaded. *)
Theorem users_survive_reload (table : list User) :
  PasswordsAsInitial table →
  loadUsers (Some (usersToSave table)) = table
  ∧ (∀ userId change st, users st = table →
       PasswordsAsInitial (users (updateUserCredits userId change st)))
  ∧ (∀ userId st, users st = table →
       PasswordsAsInitial (users (handleToggleUserStatus userId st)))
  ∧ loadUsers None = initialUsers
  ∧ PasswordsAsInitial initialUsers.
Proof.
  intros Hpasswords.
  repeat match goal with |- _ ∧ _ => split end.
  - unfold loadUsers, usersToSave. rewrite map_map.
    rewrite <- (map_id table) at 2. apply Forall_fmap_ext_1.
    eapply Forall_impl; [exact Hpasswords|].
    intros [i e p c en r] Hp. simpl in *. by rewrite Hp.
  - intros userId change st <-. simpl. apply PasswordsAsInitial_map; [|done].
    intros u. by destruct (String.eqb (id u) userId).
  - intros userId st <-. simpl. apply PasswordsAsInitial_map; [|done].
    intros u. by destruct (String.eqb (id u) userId).
  - done.
  - apply PasswordsAsInitial_initialUsers.
Qed.

Lemma users_survive_reload_witness :
  loadUsers
    (Some (usersToSave
             (users (handleToggleUserStatus "u004"
                       (updateUserCredits "u002" (-1) (Examples.appOf "u002"))))))
  = users (handleToggleUserStatus "u004"
             (updateUserCredits "u002" (-1) (Examples.appOf "u002"))).
Proof.
  destruct (users_survive_reload initialUsers PasswordsAsInitial_initialUsers)
    as (_ & Hcredit & _).
  destruct (users_survive_reload
              (users (updateUserCredits "u002" (-1) (Examples.appOf "u002")))
              (Hcredit "u002" (-1) (Examples.appOf "u002") eq_refl))
    as (_ & _ & Htoggle & _).
  by apply users_survive_reload, (Htoggle "u004").
Defined.

Lemma totalGenerations_from (start : Z) (table : list User) :
  foldl (λ sum u, sum + countedGenerations (credits u)) start table
  = start + AdminDashboard.totalGenerations table.
Proof.
  unfold AdminDashboard.totalGenerations. revert start.
  induction table as [|u table IH]; intros start; simpl; [lia|].
  rewrite (IH (start + _)), (IH (0 + _)). unfold countedGenerations. lia.
Qed.

Lemma totalGenerations_cons (u : User) (table : list User) :
  AdminDashboard.totalGenerations (u :: table)
  = countedGenerations (credits u) + AdminDashboard.totalGenerations table.
Proof.
  unfold AdminDashboard.totalGenerations at 1. simpl.
  apply (totalGenerations_from (0 + countedGenerations (credits u))).
Qed.

Lemma totalGenerations_app (before after : list User) :
  AdminDashboard.totalGenerations (before ++ after)
  = AdminDashboard.totalGenerations before + AdminDashboard.totalGenerations after.
Proof.
  induction before as [|u before IH]; simpl; [done|].
  rewrite !totalGenerations_cons, IH. lia.
Qed.

Lemma updateUserCredits_other_ids (userId : string) (change : Z) (table : list User) :
  Forall (λ v, id v ≠ userId) table →
  map (λ u, if String.eqb (id u) userId
            then withCredits u (Z.max 0 (credits u + change)) else u) table
  = table.
Proof.
  induction 1 as [|v table Hv _ IH]; simpl; [done|].
  rewrite IH. by destruct (String.eqb_spec (id v) userId).
Qed.

(** The dashboard's count of generations is never negative, and it sees
    the debit of a generation only while the balance is at most 3: when
    the one user with a given id pays a credit, the count goes up by one
    if the balance was between 1 and 3 and stays the same if it was above 3
    or at zero. *)
Theorem totalGenerations_counts_low_balances
    (before after : list User) (u : User) (st : AppState) :
  users st = before ++ u :: after →
  Forall (λ v, id v ≠ id u) before → Forall (λ v, id v ≠ id u) after →
  0 ≤ credits u →
  0 ≤ AdminDashboard.totalGenerations (users st)
  ∧ AdminDashboard.totalGenerations (users (updateUserCredits (id u) (-1) st))
    = AdminDashboard.totalGenerations (users st)
      + (if (1 <=? credits u) && (credits u <=? 3) then 1 else 0).
Proof.
  intros Htable Hbefore Hafter Hbalance. split.
  - generalize (users st). intros table.
    induction table as [|v table IH]; [done|].
    rewrite totalGenerations_cons. unfold countedGenerations.
    destruct (Z.ltb_spec (credits v) 3); lia.
  - simpl. rewrite Htable, map_app. simpl.
    rewrite String.eqb_refl, !updateUserCredits_other_ids by done.
    rewrite !totalGenerations_app, !totalGenerations_cons. simpl.
    unfold countedGenerations.
    destruct (Z.leb_spec 1 (credits u)), (Z.leb_spec (credits u) 3),
      (Z.ltb_spec (credits u) 3), (Z.ltb_spec (Z.max 0 (credits u + -1)) 3);
      simpl; lia.
Qed.

Lemma totalGenerations_counts_low_balances_witness :
  AdminDashboard.totalGenerations
    (users (updateUserCredits "u002" (-1) (Examples.appOf "u002")))
  = AdminDashboard.totalGenerations initialUsers
  ∧ AdminDashboard.totalGenerations
      (users (updateUserCredits "u004" (-1) (Examples.appOf "u004")))
    = AdminDashboard.totalGenerations initialUsers + 1.
Proof.
  split.
  - destruct (totalGenerations_counts_low_balances
                [mkUser "u001" "alice@example.com" (Some "adminpassword") 999 true admin]
                [mkUser "u003" "charlie@example.com" (Some "password123") 0 true user;
                 mkUser "u004" "diana@example.com" (Some "password123") 1 false user]
                Examples.bob (Examples.appOf "u002") eq_refl)
      as [_ Hcount]; [by repeat constructor..|simpl; lia|].
    etrans; [exact Hcount|]. simpl. lia.
  - destruct (totalGenerations_counts_low_balances
                [mkUser "u001" "alice@example.com" (Some "adminpassword") 999 true admin;
                 Examples.bob;
                 mkUser "u003" "charlie@example.com" (Some "password123") 0 true user]
                []
                (mkUser "u004" "diana@example.com" (Some "password123") 1 false user)
                (Examples.appOf "u004") eq_refl)
      as [_ Hcount]; [by repeat constructor..|simpl; lia|].
    etrans; [exact Hcount|]. done.
Defined.

End Storage.

(** ** Input checks in front of the handlers *)

Section InputChecks.

Import FileHelpers EditorView AppShell.

Variable dataURLtoFile : string → string → Outcome File.

(** The handlers check their input before they consult the gate or call
    the endpoint. Without a current image the Edit, Filter, Adjust and
    Expand handlers only set their error message; with an image, the Edit
    handler asks for a prompt that is not blank and then for a hotspot,
    in this order; the Combine panel does nothing at all without a current
    image, a second image or a prompt. In each of these cases the [App]
    state (credits, paywall, its error) and the history are untouched and
    the answer of the endpoint plays no part. *)
Theorem input_checks_precede_the_gate
    (reply : Outcome GeminiService.GenerateContentResponse) (now : Z) (w : World) :
  (currentImage (editor w) = None →
     handleGenerate dataURLtoFile reply now w
       = onEditor (setError (Some "No image loaded to edit.")) w
     ∧ handleApplyFilter dataURLtoFile reply now w
       = onEditor (setError (Some "No image loaded.")) w
     ∧ handleApplyAdjustment dataURLtoFile reply now w
       = onEditor (setError (Some "No image loaded.")) w
     ∧ handleExpandImage dataURLtoFile reply now w
       = onEditor (setError (Some "No image loaded.")) w)
  ∧ (is_Some (currentImage (editor w)) → trim (prompt (editor w)) = "" →
     handleGenerate dataURLtoFile reply now w
       = onEditor (setError (Some "Please enter a description for your edit.")) w)
  ∧ (is_Some (currentImage (editor w)) → trim (prompt (editor w)) ≠ "" →
     editHotspot (editor w) = None →
     handleGenerate dataURLtoFile reply now w
       = onEditor
           (setError (Some "Please click on the image to select an area to edit.")) w)
  ∧ (∀ image2 panelPrompt,
       currentImage (editor w) = None ∨ image2 = None ∨ panelPrompt = "" →
       combinePanelHandleApply dataURLtoFile image2 panelPrompt reply now w = w).
Proof.
  unfold handleGenerate, handleApplyFilter, handleApplyAdjustment,
    handleExpandImage, combinePanelHandleApply.
  repeat match goal with |- _ ∧ _ => split end.
  - by intros ->.
  - intros [image ->] ->. done.
  - intros [image ->] Hprompt ->. apply truthy_Some in Hprompt.
    by rewrite Hprompt.
  - intros image2 panelPrompt [->|[->| ->]]; [done| |].
    + by destruct (currentImage (editor w)).
    + by destruct (currentImage (editor w)), image2.
Qed.

End InputChecks.

Section LoginForm.

Import FileHelpers EditorView AppShell.

Lemma input_checks_precede_the_gate_witness :
  handleApplyFilter Examples.decodeDataUrl Examples.goodReply 1700000000000
    (mkWorld (Examples.appOf "u002") initialState)
  = onEditor (setError (Some "No image loaded."))
      (mkWorld (Examples.appOf "u002") initialState)
  ∧ trim Examples.blankPrompt = ""
  ∧ error (editor (handleGenerate Examples.decodeDataUrl Examples.goodReply
                     1700000000000 Examples.blankPromptWorld))
    = Some "Please enter a description for your edit.".
Proof.
  destruct (input_checks_precede_the_gate Examples.decodeDataUrl
              Examples.goodReply 1700000000000
              (mkWorld (Examples.appOf "u002") initialState))
    as ((_ & Hfilter & _) & _); [done|].
  destruct (input_checks_precede_the_gate Examples.decodeDataUrl
              Examples.goodReply 1700000000000 Examples.blankPromptWorld)
    as (_ & Hblank & _).
  split; [exact Hfilter|]. split; [reflexivity|].
  by rewrite (Hblank (mk_is_Some _ _ eq_refl) eq_refl).
Defined.

(** The login form never opens a session on a blank email or a blank
    password, even where an account would match: it only asks for both
    fields. With both fields filled in it does what [handleLogin] does. *)
Theorem login_form_requires_both_fields (e p : string) (sh : ShellState) :
  (e = "" ∨ p = "" →
     LoginPage.handleSubmit e p sh
     = onCore (App.setError (Some LoginPage.missingCredentialsMessage)) sh)
  ∧ (e ≠ "" → p ≠ "" →
     LoginPage.handleSubmit e p sh = (handleLogin e p sh).2).
Proof.
  unfold LoginPage.handleSubmit. split.
  - intros [->| ->]; [done|]. by destruct (truthy (Some e)).
  - intros He%truthy_Some Hp%truthy_Some. rewrite He, Hp. simpl.
    unfold handleLogin. simpl.
    destruct (find _ (App.users (core sh))) as [found|]; [|done].
    simpl. by destruct (App.Role_eqb (App.role found) App.admin).
Qed.

Lemma login_form_requires_both_fields_witness :
  App.currentUserId
    (core (LoginPage.handleSubmit "bob@example.com" ""
             (MoreExamples.shellOf None [])))
  = None
  ∧ App.currentUserId
      (core (LoginPage.handleSubmit "bob@example.com" "password123"
               (MoreExamples.shellOf None [])))
    = Some "u002".
Proof.
  destruct (login_form_requires_both_fields "bob@example.com" ""
              (MoreExamples.shellOf None [])) as [Hblank _].
  destruct (login_form_requires_both_fields "bob@example.com" "password123"
              (MoreExamples.shellOf None [])) as [_ Hfilled].
  rewrite Hblank by (by right). by rewrite Hfilled.
Defined.

End LoginForm.
